(** * Verification of the slot-scoring engine (buffer-project/scoring.js)

    A shallow embedding of the scoring core of [scoring.js]: the range
    test, the band classifier, the preference boost, the blocked-window
    check, the 48-slot aggregator and the ranker, followed by the
    properties stated about them.

    Conventions of the embedding.
    - JavaScript numbers occurring in the scoring core are minute counts,
      scores and counters, all integer valued, together with [NaN] (the
      result of converting non-numeric text).  They are embedded as [num];
      rule-set fields, which are integers in the source, are embedded as
      [Z].  Non-integral doubles are outside the embedded fragment.
    - [null]/[undefined] are embedded as [None].
    - The Luxon-based conversion [localMinutesFromUtcSlot] is an external
      collaborator; it is a section variable with an optional result, so
      that the statements also cover a conversion that throws ([None],
      which aborts the whole run).  With Luxon's default settings it
      always returns, giving NaN as local minute for an unknown zone.
    - Arrays that the source copies before changing are additionally
      embedded in a store of arrays, to state which array is written. *)

From Stdlib Require Import ZArith List Ascii String Sorting.Sorted.
From stdpp Require Import base option list strings gmap sorting.

Local Open Scope string_scope.
Local Open Scope Z_scope.

(** ** JavaScript numbers: integers and NaN *)

Inductive num : Type :=
  | NaN : num
  | Int (z : Z) : num.

#[global] Instance num_eq_dec : EqDecision num.
Proof. solve_decision. Defined.

(** [a === b] on numbers: NaN equals nothing, itself included. *)
Definition num_seq (a b : num) : bool :=
  match a, b with
  | Int x, Int y => x =? y
  | _, _ => false
  end.

(** [a < b]: every comparison with NaN is false. *)
Definition num_lt (a b : num) : bool :=
  match a, b with
  | Int x, Int y => x <? y
  | _, _ => false
  end.

(** [a >= b] *)
Definition num_ge (a b : num) : bool :=
  match a, b with
  | Int x, Int y => y <=? x
  | _, _ => false
  end.

Definition num_add (a b : num) : num :=
  match a, b with
  | Int x, Int y => Int (x + y)
  | _, _ => NaN
  end.

Definition num_mul (a b : num) : num :=
  match a, b with
  | Int x, Int y => Int (x * y)
  | _, _ => NaN
  end.

(** Truthiness of a number: [0] and [NaN] are falsy. *)
Definition num_truthy (a : num) : bool :=
  match a with
  | NaN => false
  | Int z => negb (z =? 0)
  end.

(** Truthiness of a possibly absent string: [null], [undefined] and the
    empty string are falsy. *)
Definition str_truthy (o : option string) : bool :=
  match o with
  | Some s => negb (String.eqb s "")
  | None => false
  end.

(** ** Strings: [split] and [Number] *)

(** [s.split(sep)] for a one-character separator; the result is never
    empty. *)
Fixpoint split (sep : ascii) (s : string) : list string :=
  match s with
  | EmptyString => [EmptyString]
  | String c s' =>
      if Ascii.eqb c sep then EmptyString :: split sep s'
      else match split sep s' with
           | h :: t => String c h :: t
           | [] => [String c EmptyString]
           end
  end.

(** ASCII white space skipped by the string-to-number conversion:
    TAB, LF, VT, FF, CR and SP. *)
Definition is_ws (c : ascii) : bool :=
  let n := nat_of_ascii c in
  (((9 <=? n) && (n <=? 13)) || (n =? 32))%nat.

Fixpoint trim_left (s : string) : string :=
  match s with
  | String c s' => if is_ws c then trim_left s' else s
  | EmptyString => EmptyString
  end.

Fixpoint trim_right (s : string) : string :=
  match s with
  | EmptyString => EmptyString
  | String c s' =>
      match trim_right s' with
      | EmptyString => if is_ws c then EmptyString else String c EmptyString
      | r => String c r
      end
  end.

Definition trim (s : string) : string := trim_right (trim_left s).

Definition digit_val (c : ascii) : option Z :=
  let n := nat_of_ascii c in
  if ((48 <=? n) && (n <=? 57))%nat then Some (Z.of_nat n - 48) else None.

Fixpoint digits_val (acc : Z) (s : string) : option Z :=
  match s with
  | EmptyString => Some acc
  | String c s' =>
      match digit_val c with
      | Some d => digits_val (10 * acc + d) s'
      | None => None
      end
  end.

(** A non-empty run of decimal digits, or NaN. *)
Definition unsigned_digits (s : string) : num :=
  match s with
  | EmptyString => NaN
  | _ => match digits_val 0 s with
         | Some z => Int z
         | None => NaN
         end
  end.

Definition num_neg (a : num) : num :=
  match a with
  | NaN => NaN
  | Int z => Int (- z)
  end.

(** [Number(s)] on a string, for the integer fragment: surrounding ASCII
    white space is dropped, the empty string is [0], an optionally signed
    run of decimal digits is its value, and any other text is [NaN].
    This is the value JavaScript computes for white space, for runs of
    digits up to 2^53 and for text that begins with a character no numeric
    literal begins with (see [plainly_not_numeric]).  Fractions, exponents,
    radix prefixes, [Infinity], non-ASCII white space and values above
    2^53 denote or produce doubles that [num] does not represent; on those
    the embedding is not the source's value, and every statement about
    parsed text below is restricted to the texts named first. *)
Definition Number (s : string) : num :=
  match trim s with
  | EmptyString => Int 0
  | String "+" r => unsigned_digits r
  | String "-" r => num_neg (unsigned_digits r)
  | r => unsigned_digits r
  end.

(** [mm || 0] where [mm] may be [undefined]. *)
Definition or_zero (mm : option num) : num :=
  match mm with
  | Some m => if num_truthy m then m else Int 0
  | None => Int 0
  end.

(** [parseHHMMToMinutes(hhmm)]:
    [const [hh, mm] = hhmm.split(":").map(Number); return hh*60 + (mm || 0)]. *)
Definition parseHHMMToMinutes (hhmm : string) : num :=
  match List.map Number (split ":" hhmm) with
  | hh :: rest => num_add (num_mul hh (Int 60)) (or_zero (head rest))
  | [] => num_add (num_mul NaN (Int 60)) (Int 0)
  end.

(** ** The range test *)

(** [isInRange(localMin, start, end)]: the half-open range [start, end)
    with wrap-around past midnight. *)
Definition isInRange (localMin start end_ : num) : bool :=
  if num_seq start end_ then true
  else if num_lt start end_ then num_ge localMin start && num_lt localMin end_
  else num_ge localMin start || num_lt localMin end_.

(** ** Data model *)

(** A band of the rule set: [{ start, end, score }], local minutes. *)
Record Range : Type := mkRange {
  start : Z;
  end_ : Z;
  score : Z
}.

(** A preference-boost range: [{ start, end, boost }]. *)
Record BoostRange : Type := mkBoost {
  boost_start : Z;
  boost_end : Z;
  boost : Z
}.

Record Rules : Type := mkRules {
  green : Range;
  yellow1 : Range;
  yellow2 : Range;
  redScore : Z;
  blockedScore : Z;
  earlyBirdBoostRange : BoostRange;
  nightOwlBoostRange : BoostRange
}.

Definition DEFAULT_RULES : Rules := {|
  green := mkRange (9 * 60) (18 * 60) 3;
  yellow1 := mkRange (6 * 60 + 30) (9 * 60) 2;
  yellow2 := mkRange (18 * 60) (23 * 60 + 30) 2;
  redScore := 0;
  blockedScore := -100;
  earlyBirdBoostRange := mkBoost (7 * 60) (10 * 60) 1;
  nightOwlBoostRange := mkBoost (18 * 60) (22 * 60) 1
|}.

Inductive Band : Type := Green | Yellow | Red.

#[global] Instance Band_eq_dec : EqDecision Band.
Proof. solve_decision. Defined.

(** A blocked window [{ start, end, date? }]: "HH:MM" strings and an
    optional "YYYY-MM-DD" date. *)
Record Window : Type := mkWindow {
  w_start : string;
  w_end : string;
  w_date : option string
}.

(** A user record of users.json, as far as the scoring core reads it. *)
Record User : Type := mkUser {
  name : string;
  timezone : option string;
  team : option string;
  preference : option string;
  noMeetingWindows : option (list Window)
}.

#[global] Instance Window_eq_dec : EqDecision Window.
Proof. solve_decision. Defined.

#[global] Instance User_eq_dec : EqDecision User.
Proof. solve_decision. Defined.

(** What [localMinutesFromUtcSlot] returns. *)
Record LocalTime : Type := mkLocal {
  localMin : num;
  localISO : option string;
  localLabel : string;
  localDate : string
}.

Record RedParticipant : Type := mkRed {
  red_name : string;
  red_timezone : option string;
  red_localLabel : string
}.

(** One per-slot record of the result. [redParticipants] is absent when
    the caller switched the collection off. *)
Record Slot : Type := mkSlot {
  utcStartMin : Z;
  totalScore : Z;
  greenCount : Z;
  yellowCount : Z;
  redCount : Z;
  blockedCount : Z;
  participantsCount : Z;
  redParticipants : option (list RedParticipant)
}.

(** [selectedNames] and [excludeNames] are given as a Set or as an array. *)
Inductive Names : Type :=
  | NameSet (s : gset string)
  | NameArray (l : list string).

(** [names instanceof Set ? names : new Set(names)] *)
Definition to_set (n : Names) : gset string :=
  match n with
  | NameSet s => s
  | NameArray l => list_to_set l
  end.

(** The options object; an absent field is [None] and takes the default
    of the destructuring pattern. *)
Record Opts : Type := mkOpts {
  o_dateISO : option string;
  o_rules : option Rules;
  o_selectedNames : option Names;
  o_team : option string;
  o_excludeNames : option Names;
  o_includeYourselfName : option string;
  o_excludeNullTimezones : option bool;
  o_includeRedParticipants : option bool
}.

(** The object returned by [scoreSlots48]. *)
Record Scored : Type := mkScored {
  dateISO : string;
  participants : list User;
  slots : list Slot
}.

(** ** Band classifier, preference boost, blocked windows *)

(** [getBaseScoreAndBand(localMin, rules)], returning
    [{ baseScore, band }] as a pair. *)
Definition getBaseScoreAndBand (localMin : num) (rules : Rules) : Z * Band :=
  if isInRange localMin (Int (start (green rules))) (Int (end_ (green rules)))
  then (score (green rules), Green)
  else if isInRange localMin (Int (start (yellow1 rules))) (Int (end_ (yellow1 rules)))
          || isInRange localMin (Int (start (yellow2 rules))) (Int (end_ (yellow2 rules)))
  then (score (yellow1 rules), Yellow)
  else (redScore rules, Red).

Definition pref_is (preference : option string) (s : string) : bool :=
  match preference with
  | Some p => String.eqb p s
  | None => false
  end.

(** [preferenceBoost(localMin, preference, rules)] *)
Definition preferenceBoost (localMin : num) (preference : option string)
    (rules : Rules) : Z :=
  if pref_is preference "early_bird" then
    let r := earlyBirdBoostRange rules in
    if isInRange localMin (Int (boost_start r)) (Int (boost_end r))
    then boost r else 0
  else if pref_is preference "night_owl" then
    let r := nightOwlBoostRange rules in
    if isInRange localMin (Int (boost_start r)) (Int (boost_end r))
    then boost r else 0
  else 0.

(** [w.date != null && w.date !== ""] *)
Definition has_date (w : Window) : bool :=
  match w_date w with
  | Some d => negb (String.eqb d "")
  | None => false
  end.

(** [localDateStr == null || localDateStr !== w.date], for a window that
    carries a date. *)
Definition date_differs (localDateStr : option string) (w : Window) : bool :=
  match localDateStr, w_date w with
  | Some d, Some wd => negb (String.eqb d wd)
  | _, _ => true
  end.

(** The callback given to [some] in [isBlocked]. *)
Definition window_hits (localMin : num) (localDateStr : option string)
    (w : Window) : bool :=
  if has_date w && date_differs localDateStr w then false
  else
    let start := parseHHMMToMinutes (w_start w) in
    let end_ := parseHHMMToMinutes (w_end w) in
    isInRange localMin start end_.

(** [isBlocked(localMin, noMeetingWindows, localDateStr)] *)
Definition isBlocked (localMin : num) (noMeetingWindows : option (list Window))
    (localDateStr : option string) : bool :=
  match noMeetingWindows with
  | None => false
  | Some [] => false
  | Some ws => existsb (window_hits localMin localDateStr) ws
  end.

(** [generateUtcSlots48()] *)
Definition generateUtcSlots48 : list Z :=
  List.map (fun i => Z.of_nat i * 30) (seq 0 48).

(** ** Participant selection *)

(** [excludeSet && excludeSet.has(n)], also [excludeSet?.has(n)] *)
Definition in_exclude (excludeSet : option (gset string)) (n : string) : bool :=
  match excludeSet with
  | Some s => bool_decide (n ∈ s)
  | None => false
  end.

(** [selectedSet && selectedSet.size > 0 && !selectedSet.has(n)] *)
Definition not_selected (selectedSet : option (gset string)) (n : string) : bool :=
  match selectedSet with
  | Some s => (0 <? size s)%nat && negb (bool_decide (n ∈ s))
  | None => false
  end.

(** [team != null && team !== "" && u.team !== team] *)
Definition other_team (team_filter : option string) (u : User) : bool :=
  match team_filter with
  | Some t =>
      negb (String.eqb t "") &&
      match team u with
      | Some ut => negb (String.eqb ut t)
      | None => true
      end
  | None => false
  end.

(** The callback given to [users.filter]. *)
Definition keep_user (excludeSet selectedSet : option (gset string))
    (team_filter : option string) (excludeNullTimezones : bool) (u : User) : bool :=
  if in_exclude excludeSet (name u) then false
  else if not_selected selectedSet (name u) then false
  else if other_team team_filter u then false
  else if excludeNullTimezones && negb (str_truthy (timezone u)) then false
  else true.

Definition named (n : string) (u : User) : bool := String.eqb (name u) n.

(** Truthiness of what [Array.prototype.find] returns: an object, or
    [undefined]. *)
Definition found {A} (o : option A) : bool :=
  match o with
  | Some _ => true
  | None => false
  end.

(** The record appended by the "yourself" rule, if any:
    the guard of lines 139-141 of the source. *)
Definition yourself_to_add (excludeSet : option (gset string))
    (includeYourselfName : option string) (excludeNullTimezones : bool)
    (users participants : list User) : option User :=
  match includeYourselfName with
  | Some y =>
      if str_truthy includeYourselfName && negb (in_exclude excludeSet y) then
        match List.find (named y) users with
        | Some yourself =>
            if (str_truthy (timezone yourself) || negb excludeNullTimezones)
               && negb (found (List.find (named y) participants))
            then Some yourself
            else None
        | None => None
        end
      else None
  | None => None
  end.

Definition opt_excludeSet (opts : Opts) : option (gset string) :=
  to_set <$> o_excludeNames opts.

Definition opt_selectedSet (opts : Opts) : option (gset string) :=
  to_set <$> o_selectedNames opts.

Definition opt_excludeNullTimezones (opts : Opts) : bool :=
  default true (o_excludeNullTimezones opts).

Definition opt_includeRedParticipants (opts : Opts) : bool :=
  default true (o_includeRedParticipants opts).

Definition opt_rules (opts : Opts) : Rules :=
  default DEFAULT_RULES (o_rules opts).

(** [users.filter(u => ...)] *)
Definition filter_users (users : list User) (opts : Opts) : list User :=
  List.filter
    (keep_user (opt_excludeSet opts) (opt_selectedSet opts) (o_team opts)
       (opt_excludeNullTimezones opts))
    users.

(** The participant list after filtering and the "yourself" rule. *)
Definition select_participants (users : list User) (opts : Opts) : list User :=
  let participants := filter_users users opts in
  match yourself_to_add (opt_excludeSet opts) (o_includeYourselfName opts)
          (opt_excludeNullTimezones opts) users participants with
  | Some yourself => (participants ++ [yourself])%list
  | None => participants
  end.

(** *** The same selection on a store of arrays

    An array value is a reference into a store.  [users.filter] and the
    spread [[...participants, yourself]] each allocate a new array; no
    statement of the selection writes to an existing one. *)

Definition alloc {A} (σ : gmap positive (list A)) (l : list A)
    : positive * gmap positive (list A) :=
  let r := fresh (dom σ) in (r, <[r := l]> σ).

Definition select_participants_st (σ : gmap positive (list User))
    (users : positive) (opts : Opts)
    : option (positive * gmap positive (list User)) :=
  us ← σ !! users;
  let '(participants, σ1) := alloc σ (filter_users us opts) in
  ps ← σ1 !! participants;
  match yourself_to_add (opt_excludeSet opts) (o_includeYourselfName opts)
          (opt_excludeNullTimezones opts) us ps with
  | Some yourself => Some (alloc σ1 (ps ++ [yourself])%list)
  | None => Some (participants, σ1)
  end.

(** ** The slot aggregator *)

(** The five running totals of one slot and the red-participant list. *)
Record Acc : Type := mkAcc {
  a_totalScore : Z;
  a_greenCount : Z;
  a_yellowCount : Z;
  a_redCount : Z;
  a_blockedCount : Z;
  a_redParticipants : option (list RedParticipant)
}.

Definition acc0 (includeRedParticipants : bool) : Acc :=
  mkAcc 0 0 0 0 0 (if includeRedParticipants then Some [] else None).

(** [if (redParticipants) redParticipants.push(r)] *)
Definition push_red (redParticipants : option (list RedParticipant))
    (r : RedParticipant) : option (list RedParticipant) :=
  match redParticipants with
  | Some reds => Some (reds ++ [r])%list
  | None => None
  end.

(** A [for ... of] loop whose body may throw. *)
Fixpoint for_of {S A} (body : S → A → option S) (s : S) (l : list A) : option S :=
  match l with
  | [] => Some s
  | x :: l' => s' ← body s x; for_of body s' l'
  end.

(** The part of the loop body after the time conversion. *)
Definition score_local (rules : Rules) (acc : Acc) (user : User) (t : LocalTime) : Acc :=
  if isBlocked (localMin t) (noMeetingWindows user) (Some (localDate t)) then
    mkAcc (a_totalScore acc + blockedScore rules)
          (a_greenCount acc) (a_yellowCount acc) (a_redCount acc)
          (a_blockedCount acc + 1) (a_redParticipants acc)
  else
    let '(baseScore, band) := getBaseScoreAndBand (localMin t) rules in
    let total :=
      a_totalScore acc + (baseScore + preferenceBoost (localMin t) (preference user) rules) in
    match band with
    | Green =>
        mkAcc total (a_greenCount acc + 1) (a_yellowCount acc) (a_redCount acc)
              (a_blockedCount acc) (a_redParticipants acc)
    | Yellow =>
        mkAcc total (a_greenCount acc) (a_yellowCount acc + 1) (a_redCount acc)
              (a_blockedCount acc) (a_redParticipants acc)
    | Red =>
        mkAcc total (a_greenCount acc) (a_yellowCount acc) (a_redCount acc + 1)
              (a_blockedCount acc)
              (push_red (a_redParticipants acc)
                 (mkRed (name user) (timezone user) (localLabel t)))
    end.

Section Scoring.

(** The Luxon collaborator: [localMinutesFromUtcSlot(dateISO, utcStartMin, tz)];
    [None] is a thrown exception. *)
Variable localMinutesFromUtcSlot : string → Z → option string → option LocalTime.

(** [DateTime.now().toISODate()], the default of [dateISO]. *)
Variable now_toISODate : string.

Definition opt_dateISO (opts : Opts) : string :=
  default now_toISODate (o_dateISO opts).

(** The body of [for (const user of participants)]. *)
Definition score_user (date : string) (rules : Rules) (utc : Z)
    (acc : Acc) (user : User) : option Acc :=
  t ← localMinutesFromUtcSlot date utc (timezone user);
  Some (score_local rules acc user t).

(** The callback given to [utcSlots.map]. *)
Definition score_slot (date : string) (rules : Rules)
    (includeRedParticipants : bool) (ps : list User) (utc : Z) : option Slot :=
  acc ← for_of (score_user date rules utc) (acc0 includeRedParticipants) ps;
  Some {| utcStartMin := utc;
          totalScore := a_totalScore acc;
          greenCount := a_greenCount acc;
          yellowCount := a_yellowCount acc;
          redCount := a_redCount acc;
          blockedCount := a_blockedCount acc;
          participantsCount := Z.of_nat (length ps);
          redParticipants := a_redParticipants acc |}.

(** [scoreSlots48(users, opts)] *)
Definition scoreSlots48 (users : list User) (opts : Opts) : option Scored :=
  let ps := select_participants users opts in
  results ← mapM (score_slot (opt_dateISO opts) (opt_rules opts)
                    (opt_includeRedParticipants opts) ps)
                 generateUtcSlots48;
  Some {| dateISO := opt_dateISO opts; participants := ps; slots := results |}.

End Scoring.

(** ** The ranker *)

(** [Array.prototype.sort(comparefn)].  ECMAScript requires the sort to be
    stable and, for a consistent comparator, to leave the array ordered by
    it.  There is exactly one such arrangement of a given array (lemma
    [sort_unique] below), so stable insertion is an exact model whenever
    the comparator is consistent, as [compareSlots] is. *)
Section Sort.
Context {A : Type} (comparefn : A → A → Z).

Fixpoint insert_sorted (x : A) (l : list A) : list A :=
  match l with
  | [] => [x]
  | y :: l' =>
      if comparefn x y <=? 0 then x :: y :: l'
      else y :: insert_sorted x l'
  end.

Definition sort (l : list A) : list A := foldr insert_sorted [] l.

(** [a] may stand before [b]; [a] and [b] tie. *)
Definition cmp_le (a b : A) : Prop := comparefn a b <= 0.
Definition tie (a b : A) : bool := comparefn a b =? 0.
End Sort.

(** The comparator of [rankSlots]. *)
Definition compareSlots (a b : Slot) : Z :=
  if negb (blockedCount a =? blockedCount b) then blockedCount a - blockedCount b
  else if negb (redCount a =? redCount b) then redCount a - redCount b
  else if negb (totalScore a =? totalScore b) then totalScore b - totalScore a
  else greenCount b - greenCount a.

(** [rankSlots(slots)]: the value of [[...slots].sort(compareSlots)]. *)
Definition rankSlots (slots : list Slot) : list Slot :=
  sort compareSlots slots.

(** [rankSlots] on the store of arrays: the spread allocates a copy,
    [sort] reorders that copy in place and returns it. *)
Definition rankSlots_st (σ : gmap positive (list Slot)) (slots : positive)
    : option (positive * gmap positive (list Slot)) :=
  l ← σ !! slots;
  let '(copy, σ1) := alloc σ l in
  Some (copy, alter (sort compareSlots) copy σ1).

(** ** Specification-side definitions *)

(** The priority order in words: fewer blocked; then fewer red; then
    higher total score; then more green. *)
Definition ranks_before (a b : Slot) : Prop :=
  blockedCount a < blockedCount b ∨
  (blockedCount a = blockedCount b ∧
   (redCount a < redCount b ∨
    (redCount a = redCount b ∧
     (totalScore a > totalScore b ∨
      (totalScore a = totalScore b ∧ greenCount a > greenCount b))))).

(** Equal on all four keys of the comparator. *)
Definition same_keys (a b : Slot) : bool :=
  (blockedCount a =? blockedCount b) && (redCount a =? redCount b)
  && (totalScore a =? totalScore b) && (greenCount a =? greenCount b).

(** The range rule in words: the whole day when the ends coincide, the
    plain half-open interval when [s < e], the wrapped one when [s > e]. *)
Definition in_range_spec (t s e : Z) : Prop :=
  s = e ∨ (s < e ∧ s <= t ∧ t < e) ∨ (s > e ∧ (t >= s ∨ t < e)).

#[global] Instance in_range_spec_dec t s e : Decision (in_range_spec t s e).
Proof. unfold in_range_spec. apply _. Defined.

(** A window matches in words: a window with a non-empty date requires
    the local date to be that date; the time is tested with the range
    rule on the parsed ends. *)
Definition window_matches (localMin : num) (localDateStr : option string)
    (w : Window) : Prop :=
  (∀ d, w_date w = Some d → d ≠ "" → localDateStr = Some d) ∧
  isInRange localMin (parseHHMMToMinutes (w_start w))
    (parseHHMMToMinutes (w_end w)) = true.

(** The window list of a participant, empty when absent. *)
Definition windows_of (noMeetingWindows : option (list Window)) : list Window :=
  default [] noMeetingWindows.

(** A participant together with the local time of the slot. *)
Definition blocked_at (ut : User * LocalTime) : bool :=
  isBlocked (localMin ut.2) (noMeetingWindows ut.1) (Some (localDate ut.2)).

Definition band_at (rules : Rules) (ut : User * LocalTime) : Band :=
  (getBaseScoreAndBand (localMin ut.2) rules).2.

(** Unblocked and classified into band [b]. *)
Definition in_band (rules : Rules) (b : Band) (ut : User * LocalTime) : bool :=
  negb (blocked_at ut) && bool_decide (band_at rules ut = b).

(** What one participant adds to the total of a slot, in words: the
    blocked score when blocked, else base score plus boost. *)
Definition contribution (rules : Rules) (ut : User * LocalTime) : Z :=
  if blocked_at ut then blockedScore rules
  else (getBaseScoreAndBand (localMin ut.2) rules).1
       + preferenceBoost (localMin ut.2) (preference ut.1) rules.

Definition count_if {A} (P : A → bool) (l : list A) : Z :=
  Z.of_nat (length (List.filter P l)).

Definition sumZ (l : list Z) : Z := foldr Z.add 0 l.

(** The local times of all participants at one slot; fails when one
    conversion fails. *)
Definition local_times (conv : string → Z → option string → option LocalTime)
    (date : string) (utc : Z) (ps : list User) : option (list LocalTime) :=
  mapM (λ u, conv date utc (timezone u)) ps.

(** The all-zero record of a slot without participants. *)
Definition empty_slot (includeRedParticipants : bool) (utc : Z) : Slot :=
  mkSlot utc 0 0 0 0 0 0 (if includeRedParticipants then Some [] else None).

(** A rule set with the score of [yellow2] replaced. *)
Definition with_yellow2_score (rules : Rules) (s : Z) : Rules :=
  mkRules (green rules) (yellow1 rules)
    (mkRange (start (yellow2 rules)) (end_ (yellow2 rules)) s)
    (redScore rules) (blockedScore rules)
    (earlyBirdBoostRange rules) (nightOwlBoostRange rules).

(** Options with the rule set overridden. *)
Definition with_rules (opts : Opts) (rules : Rules) : Opts :=
  mkOpts (o_dateISO opts) (Some rules) (o_selectedNames opts) (o_team opts)
    (o_excludeNames opts) (o_includeYourselfName opts)
    (o_excludeNullTimezones opts) (o_includeRedParticipants opts).

(** A character that no numeric literal begins with: an ASCII character
    that is not white space, a digit, a sign, a dot or the [I] of
    [Infinity]. *)
Definition not_numeric_start (c : ascii) : bool :=
  (nat_of_ascii c <? 128)%nat && negb (is_ws c)
  && match digit_val c with Some _ => false | None => true end
  && negb (Ascii.eqb c "+") && negb (Ascii.eqb c "-")
  && negb (Ascii.eqb c ".") && negb (Ascii.eqb c "I").

(** Text that is certainly not numeric: after leading ASCII white space it
    begins with such a character.  [Number] of such text is NaN in
    JavaScript. *)
Definition plainly_not_numeric (s : string) : bool :=
  match trim_left s with
  | String c _ => not_numeric_start c
  | EmptyString => false
  end.

(** An "HH:MM" string whose hour or minute text is certainly not
    numeric. *)
Definition malformed (hhmm : string) : bool :=
  existsb plainly_not_numeric (take 2 (split ":" hhmm)).

(** ** A sample time conversion

    Used to run the engine on concrete inputs.  It covers the zones that
    are at UTC+0 all year, for which the local time of a slot is its UTC
    time on the same date; every other zone, and an absent one, is outside
    what the sample covers and gives [None]. *)

Definition digit_char (n : nat) : ascii := ascii_of_nat (48 + n).

(** Two-digit field of the "HH:mm" format. *)
Definition pad2 (n : nat) : string :=
  String (digit_char (n / 10)) (String (digit_char (n mod 10)) EmptyString).

Definition zero_offset_zone (tz : option string) : bool :=
  match tz with
  | Some z => String.eqb z "UTC" || String.eqb z "Africa/Abidjan"
              || String.eqb z "Atlantic/Reykjavik"
  | None => false
  end.

(** The offset suffix of [toISO]: [Z] for the fixed zone UTC, a numeric
    offset for a named zone. *)
Definition iso_offset (tz : option string) : string :=
  match tz with
  | Some z => if String.eqb z "UTC" then "Z" else "+00:00"
  | None => "+00:00"
  end.

Definition sample_conversion (date : string) (utc : Z) (tz : option string)
    : option LocalTime :=
  if zero_offset_zone tz && (0 <=? utc) && (utc <? 1440) then
    let label := pad2 (Z.to_nat (utc / 60)) +:+ ":" +:+ pad2 (Z.to_nat (utc mod 60)) in
    Some {| localMin := Int utc;
            localISO := Some (date +:+ "T" +:+ label +:+ ":00.000"
                              +:+ iso_offset tz);
            localLabel := label;
            localDate := date |}
  else None.

Definition sample_date : string := "2026-02-25".

Definition alice : User :=
  mkUser "Alice" (Some "UTC") (Some "Engineering") (Some "early_bird")
    (Some [mkWindow "12:00" "13:00" None]).

Definition bob : User :=
  mkUser "Bob" (Some "Africa/Abidjan") (Some "Design") (Some "night_owl") None.

(** A participant whose window has a non-numeric start. *)
Definition carol : User :=
  mkUser "Carol" (Some "UTC") (Some "Design") None
    (Some [mkWindow "ab:cd" "13:00" None]).

(** A participant without a timezone. *)
Definition dave : User :=
  mkUser "Dave" None (Some "Engineering") None None.

Definition sample_users : list User := [alice; bob; carol; dave].

Definition sample_opts : Opts :=
  mkOpts (Some sample_date) None None None None None None None.

(** The run on the sample users: Dave is dropped for want of a timezone. *)
Definition sample_result : Scored :=
  default (mkScored "" [] [])
    (scoreSlots48 sample_conversion sample_date sample_users sample_opts).

(** Its record for the slot at 12:00 UTC. *)
Definition sample_noon_slot : Slot :=
  mkSlot 720 (-197) 1 0 0 2 3 (Some []).

(** Only Bob is selected, and Alice is named as "yourself". *)
Definition yourself_opts : Opts :=
  mkOpts (Some sample_date) None (Some (NameArray ["Bob"])) None None
    (Some "Alice") None None.

(** Two slot records: [slot_a] has nobody blocked and a low score,
    [slot_b] one blocked participant and a high score; [slot_c] ties with
    [slot_a] on all four keys. *)
Definition slot_a : Slot := mkSlot 0 5 1 1 1 0 3 None.
Definition slot_b : Slot := mkSlot 30 50 2 0 0 1 3 None.
Definition slot_c : Slot := mkSlot 60 5 1 0 1 0 2 None.

(** The requirement that a malformed window string makes the run fail. *)
Definition rejects_malformed_windows
    (conv : string → Z → option string → option LocalTime) (today : string) : Prop :=
  ∀ users opts u ws w,
    u ∈ select_participants users opts →
    noMeetingWindows u = Some ws → w ∈ ws →
    malformed (w_start w) || malformed (w_end w) = true →
    scoreSlots48 conv today users opts = None.

(** ** Definitions for further properties *)

(** The local minutes of a day. *)
Definition minutes_of_day : list Z := seqZ 0 1440.

(** How many minutes of the day a range contains. *)
Definition covered_minutes (s e : Z) : Z :=
  count_if (λ t, isInRange (Int t) (Int s) (Int e)) minutes_of_day.

(** Neither an early bird nor a night owl. *)
Definition no_boost_preference (u : User) : bool :=
  negb (pref_is (preference u) "early_bird")
  && negb (pref_is (preference u) "night_owl").

(** The entry of the red-participant list for a participant. *)
Definition to_red (ut : User * LocalTime) : RedParticipant :=
  mkRed (name ut.1) (timezone ut.1) (localLabel ut.2).

(** Options without the allow-list, and without the team filter. *)
Definition without_selection (opts : Opts) : Opts :=
  mkOpts (o_dateISO opts) (o_rules opts) None (o_team opts)
    (o_excludeNames opts) (o_includeYourselfName opts)
    (o_excludeNullTimezones opts) (o_includeRedParticipants opts).

Definition without_team (opts : Opts) : Opts :=
  mkOpts (o_dateISO opts) (o_rules opts) (o_selectedNames opts) None
    (o_excludeNames opts) (o_includeYourselfName opts)
    (o_excludeNullTimezones opts) (o_includeRedParticipants opts).

(** Everybody excluded but nobody selected, in team "Design", with Alice
    named as "yourself". *)
Definition design_opts : Opts :=
  mkOpts (Some sample_date) None (Some (NameArray [])) (Some "Design")
    (Some (NameSet {["Carol"]})) (Some "Alice") None None.

(** Two slot records that agree on everything but the red-participant
    list, and two running totals that agree likewise. *)
Definition same_tally (s s' : Slot) : Prop :=
  utcStartMin s = utcStartMin s' ∧ totalScore s = totalScore s' ∧
  greenCount s = greenCount s' ∧ yellowCount s = yellowCount s' ∧
  redCount s = redCount s' ∧ blockedCount s = blockedCount s' ∧
  participantsCount s = participantsCount s'.

Definition acc_tally (a b : Acc) : Prop :=
  a_totalScore a = a_totalScore b ∧ a_greenCount a = a_greenCount b ∧
  a_yellowCount a = a_yellowCount b ∧ a_redCount a = a_redCount b ∧
  a_blockedCount a = a_blockedCount b.

(** Two results that agree up to the order of the participants. *)
Definition same_scores (r r' : Scored) : Prop :=
  dateISO r = dateISO r' ∧ participants r ≡ₚ participants r' ∧
  Forall2 same_tally (slots r) (slots r').

(** Options with the red-participant collection switched on or off. *)
Definition with_red_collection (opts : Opts) (b : option bool) : Opts :=
  mkOpts (o_dateISO opts) (o_rules opts) (o_selectedNames opts) (o_team opts)
    (o_excludeNames opts) (o_includeYourselfName opts)
    (o_excludeNullTimezones opts) b.

(** No band or boost range of the rule set has coinciding ends. *)
Definition proper_ranges (rules : Rules) : Prop :=
  start (green rules) ≠ end_ (green rules) ∧
  start (yellow1 rules) ≠ end_ (yellow1 rules) ∧
  start (yellow2 rules) ≠ end_ (yellow2 rules) ∧
  boost_start (earlyBirdBoostRange rules) ≠ boost_end (earlyBirdBoostRange rules) ∧
  boost_start (nightOwlBoostRange rules) ≠ boost_end (nightOwlBoostRange rules).

(** * Properties *)

(** ** Numbers and the range test *)

Lemma isInRange_Int (t s e : Z) :
  isInRange (Int t) (Int s) (Int e) =
    if s =? e then true
    else if s <? e then (s <=? t) && (t <? e)
    else (s <=? t) || (t <? e).
Proof. reflexivity. Qed.

Lemma isInRange_full_day (t s : Z) : isInRange (Int t) (Int s) (Int s) = true.
Proof. rewrite isInRange_Int, Z.eqb_refl. reflexivity. Qed.

Lemma isInRange_NaN_both (t : num) : isInRange t NaN NaN = false.
Proof. destruct t; reflexivity. Qed.

Lemma isInRange_NaN_time (s e : num) :
  isInRange NaN s e = num_seq s e.
Proof. unfold isInRange. destruct (num_seq s e), (num_lt s e); reflexivity. Qed.

(** ** Generic facts about the stable sort *)

Section SortFacts.
Context {A : Type} (cmp : A → A → Z).

(** A consistent comparator: swapping the arguments flips the sign, and
    "not after" is transitive. *)
Hypothesis cmp_flip : ∀ a b, cmp b a = - cmp a b.
Hypothesis cmp_trans : ∀ a b c, cmp a b <= 0 → cmp b c <= 0 → cmp a c <= 0.

Lemma tie_sym a b : tie cmp a b = tie cmp b a.
Proof.
  unfold tie. rewrite (cmp_flip a b).
  destruct (Z.eqb_spec (cmp a b) 0), (Z.eqb_spec (- cmp a b) 0); lia.
Qed.

Lemma tie_trans a b c : tie cmp a b = true → tie cmp b c = true → tie cmp a c = true.
Proof.
  unfold tie. rewrite !Z.eqb_eq. intros Hab Hbc.
  pose proof (cmp_trans a b c) as H1.
  pose proof (cmp_trans c b a) as H2.
  rewrite (cmp_flip b c), (cmp_flip a b), (cmp_flip a c) in H2. lia.
Qed.

Lemma insert_sorted_perm x l : insert_sorted cmp x l ≡ₚ x :: l.
Proof.
  induction l as [|y l IH]; simpl; [done|].
  destruct (cmp x y <=? 0); [done|].
  rewrite IH. apply Permutation_swap.
Qed.

Lemma sort_perm l : sort cmp l ≡ₚ l.
Proof.
  induction l as [|x l IH]; simpl; [done|].
  rewrite insert_sorted_perm. by rewrite IH.
Qed.

Lemma insert_sorted_sorted x l :
  StronglySorted (cmp_le cmp) l → StronglySorted (cmp_le cmp) (insert_sorted cmp x l).
Proof.
  induction 1 as [|y l Hs IH Hy]; simpl.
  - repeat constructor.
  - destruct (Z.leb_spec (cmp x y) 0) as [Hle|Hgt].
    + constructor; [by constructor|].
      constructor; [done|].
      eapply Forall_impl; [exact Hy|]. intros z Hz. by eapply cmp_trans.
    + constructor; [done|].
      rewrite insert_sorted_perm. constructor; [|done].
      unfold cmp_le. rewrite (cmp_flip x y). lia.
Qed.

Lemma sort_sorted l : StronglySorted (cmp_le cmp) (sort cmp l).
Proof.
  induction l as [|x l IH]; simpl; [constructor|].
  by apply insert_sorted_sorted.
Qed.

(** Insertion never moves an element across one it ties with. *)
Lemma insert_sorted_stable z x l :
  List.filter (tie cmp z) (insert_sorted cmp x l) = List.filter (tie cmp z) (x :: l).
Proof.
  induction l as [|y l IH]; [done|].
  cbn [insert_sorted].
  destruct (Z.leb_spec (cmp x y) 0) as [Hle|Hgt]; [done|].
  cbn [List.filter] in *. rewrite IH.
  destruct (tie cmp z x) eqn:Hx, (tie cmp z y) eqn:Hy; try done.
  exfalso. rewrite tie_sym in Hx.
  pose proof (tie_trans _ _ _ Hx Hy) as Hxy.
  unfold tie in Hxy. apply Z.eqb_eq in Hxy. lia.
Qed.

Lemma sort_stable z l :
  List.filter (tie cmp z) (sort cmp l) = List.filter (tie cmp z) l.
Proof.
  induction l as [|x l IH]; [done|].
  cbn [sort foldr]. rewrite insert_sorted_stable.
  cbn [List.filter]. fold (sort cmp l). by rewrite IH.
Qed.

Lemma sort_of_sorted l : StronglySorted (cmp_le cmp) l → sort cmp l = l.
Proof.
  induction 1 as [|x l Hs IH Hx]; [done|].
  cbn [sort foldr]. fold (sort cmp l). rewrite IH.
  destruct Hx as [|y l Hxy _]; [done|].
  cbn [insert_sorted]. unfold cmp_le in Hxy.
  by destruct (Z.leb_spec (cmp x y) 0); [|lia].
Qed.

Lemma sort_idempotent l : sort cmp (sort cmp l) = sort cmp l.
Proof. apply sort_of_sorted, sort_sorted. Qed.

Lemma tie_refl a : tie cmp a a = true.
Proof. unfold tie. apply Z.eqb_eq. pose proof (cmp_flip a a). lia. Qed.

(** Two ordered lists that agree on every class of tied elements are
    equal. *)
Lemma sorted_stable_unique l1 l2 :
  StronglySorted (cmp_le cmp) l1 → StronglySorted (cmp_le cmp) l2 →
  (∀ z, List.filter (tie cmp z) l1 = List.filter (tie cmp z) l2) →
  l1 = l2.
Proof.
  intros H1. revert l2.
  induction H1 as [|a l1 Hs1 IH Ha]; intros l2 H2 Hf.
  - destruct l2 as [|b l2]; [done|].
    specialize (Hf b). cbn in Hf. by rewrite tie_refl in Hf.
  - destruct H2 as [|b l2 Hs2 Hb].
    { specialize (Hf a). cbn in Hf. by rewrite tie_refl in Hf. }
    assert (Hab : tie cmp a b = true).
    { assert (Hb1 : b ∈ a :: l1).
      { pose proof (Hf b) as Hfb. cbn in Hfb. rewrite (tie_refl b) in Hfb.
        assert (Hin : In b (List.filter (tie cmp b) (a :: l1))).
        { cbn. rewrite Hfb. by left. }
        apply filter_In in Hin as [Hin _]. by apply list_elem_of_In. }
      assert (Ha2 : a ∈ b :: l2).
      { pose proof (Hf a) as Hfa. cbn in Hfa. rewrite (tie_refl a) in Hfa.
        assert (Hin : In a (List.filter (tie cmp a) (b :: l2))).
        { cbn [List.filter]. rewrite <- Hfa. by left. }
        apply filter_In in Hin as [Hin _]. by apply list_elem_of_In. }
      assert (cmp a b <= 0).
      { apply elem_of_cons in Hb1 as [->|Hin].
        - pose proof (cmp_flip a a). lia.
        - rewrite Forall_forall in Ha. by apply Ha. }
      assert (cmp b a <= 0).
      { apply elem_of_cons in Ha2 as [->|Hin].
        - pose proof (cmp_flip b b). lia.
        - rewrite Forall_forall in Hb. by apply Hb. }
      unfold tie. apply Z.eqb_eq. rewrite (cmp_flip a b) in *. lia. }
    assert (a = b) as <-.
    { pose proof (Hf a) as Hfa. cbn in Hfa.
      rewrite (tie_refl a), Hab in Hfa. congruence. }
    f_equal. apply IH; [done|]. intros z.
    specialize (Hf z). cbn in Hf. destruct (tie cmp z a); congruence.
Qed.

(** The arrangement required of [Array.prototype.sort] is the one the
    model computes. *)
Lemma sort_unique l l' :
  StronglySorted (cmp_le cmp) l' →
  (∀ z, List.filter (tie cmp z) l' = List.filter (tie cmp z) l) →
  l' = sort cmp l.
Proof.
  intros Hs Hf. apply sorted_stable_unique; [done|apply sort_sorted|].
  intros z. by rewrite Hf, sort_stable.
Qed.
End SortFacts.

(** ** The comparator of the ranker *)

Ltac compare_cases :=
  unfold compareSlots, ranks_before, same_keys;
  repeat match goal with
         | |- context [?x =? ?y] => destruct (Z.eqb_spec x y)
         end;
  cbn [negb andb].

Lemma compareSlots_flip a b : compareSlots b a = - compareSlots a b.
Proof. compare_cases; lia. Qed.

Lemma compareSlots_neg a b : compareSlots a b < 0 ↔ ranks_before a b.
Proof. compare_cases; lia. Qed.

Lemma compareSlots_tie a b : tie compareSlots a b = same_keys a b.
Proof.
  unfold tie.
  destruct (Z.eqb_spec (compareSlots a b) 0) as [H|H]; revert H;
    compare_cases; intros; try reflexivity; lia.
Qed.

Lemma compareSlots_trans a b c :
  compareSlots a b <= 0 → compareSlots b c <= 0 → compareSlots a c <= 0.
Proof. compare_cases; lia. Qed.

Lemma rankSlots_perm slots : rankSlots slots ≡ₚ slots.
Proof. apply sort_perm. Qed.

Lemma rankSlots_sorted slots : StronglySorted (cmp_le compareSlots) (rankSlots slots).
Proof. apply sort_sorted; [apply compareSlots_flip|apply compareSlots_trans]. Qed.

(** Any arrangement that is ordered by the comparator and keeps tied
    records in input order is the one [rankSlots] returns. *)
Lemma rankSlots_unique slots slots' :
  StronglySorted (cmp_le compareSlots) slots' →
  (∀ z, List.filter (same_keys z) slots' = List.filter (same_keys z) slots) →
  slots' = rankSlots slots.
Proof.
  intros Hs Hf.
  apply (sort_unique compareSlots compareSlots_flip compareSlots_trans); [done|].
  intros z.
  rewrite !(filter_ext (tie compareSlots z) (same_keys z))
    by apply compareSlots_tie.
  apply Hf.
Qed.

(** In an ordered list a later element is never strictly before an
    earlier one. *)
Lemma sorted_lookup_le {A} (cmp : A → A → Z) (l : list A) i j a b :
  StronglySorted (cmp_le cmp) l →
  l !! i = Some a → l !! j = Some b → (i < j)%nat → cmp a b <= 0.
Proof.
  intros Hs. revert i j.
  induction Hs as [|x l Hs IH Hx]; intros i j Hi Hj Hlt; [done|].
  destruct j as [|j]; [lia|]. cbn in Hj.
  destruct i as [|i]; cbn in Hi.
  - injection Hi as ->. rewrite Forall_forall in Hx.
    apply Hx. by eapply list_elem_of_lookup_2.
  - apply (IH i j); [done|done|lia].
Qed.

Lemma rankSlots_positions slots i j a b :
  rankSlots slots !! i = Some a → rankSlots slots !! j = Some b →
  ranks_before a b → (i < j)%nat.
Proof.
  intros Hi Hj Hab. apply compareSlots_neg in Hab.
  destruct (Nat.lt_trichotomy i j) as [Hlt|[->|Hgt]]; [done| |].
  - rewrite Hi in Hj. injection Hj as ->.
    pose proof (compareSlots_flip b b). lia.
  - pose proof (sorted_lookup_le _ _ _ _ _ _ (rankSlots_sorted slots) Hj Hi Hgt) as H.
    rewrite compareSlots_flip in H. lia.
Qed.

(** A slot with fewer blocked participants is placed first whatever the
    other keys are. *)
Lemma fewer_blocked_first slots i j a b :
  rankSlots slots !! i = Some a → rankSlots slots !! j = Some b →
  blockedCount a < blockedCount b → (i < j)%nat.
Proof. intros Hi Hj Hlt. eapply rankSlots_positions; eauto. by left. Qed.

(** C4.  [rankSlots] orders slot records by strict priority: whenever [a]
    has fewer blocked participants than [b], or as many and fewer red
    ones, or as many of both and a higher total score, or the same three
    and more green ones, both records are in the output and every
    occurrence of [a] stands before every occurrence of [b].  The sign of
    the comparator is exactly this order, and fewer blocked participants
    decide the order whatever the total scores are. *)
Theorem rankSlots_priority (slots : list Slot) (a b : Slot) :
  a ∈ slots → b ∈ slots → ranks_before a b →
  (compareSlots a b < 0 ∧ compareSlots b a > 0) ∧
  (a ∈ rankSlots slots ∧ b ∈ rankSlots slots) ∧
  (∀ i j, rankSlots slots !! i = Some a → rankSlots slots !! j = Some b →
          (i < j)%nat) ∧
  (∀ x y i j, rankSlots slots !! i = Some x → rankSlots slots !! j = Some y →
              blockedCount x < blockedCount y → (i < j)%nat).
Proof.
  intros Ha Hb Hab. split; [|split; [|split]].
  - apply compareSlots_neg in Hab. rewrite (compareSlots_flip a b). lia.
  - by rewrite !rankSlots_perm.
  - intros i j Hi Hj. by eapply rankSlots_positions.
  - intros x y i j. apply fewer_blocked_first.
Qed.

(** [slot_a] has nobody blocked, [slot_b] has one and ten times the score. *)
Lemma rankSlots_priority_witness :
  ranks_before slot_a slot_b ∧
  compareSlots slot_a slot_b < 0 ∧
  slot_a ∈ rankSlots [slot_b; slot_a].
Proof.
  assert (ranks_before slot_a slot_b) as Hab by (left; reflexivity).
  split; [exact Hab|].
  destruct (rankSlots_priority [slot_b; slot_a] slot_a slot_b)
    as ((Hneg & _) & (Ha & _) & _).
  - apply list_elem_of_further, list_elem_of_here.
  - apply list_elem_of_here.
  - exact Hab.
  - split; [exact Hneg|exact Ha].
Defined.

(** ** The range test and its users *)

Lemma in_range_spec_iff (t s e : Z) :
  isInRange (Int t) (Int s) (Int e) = true ↔ in_range_spec t s e.
Proof.
  rewrite isInRange_Int. unfold in_range_spec.
  destruct (Z.eqb_spec s e), (Z.ltb_spec s e), (Z.leb_spec s t), (Z.ltb_spec t e);
    cbn; split; intros; try done; lia.
Qed.

Lemma has_date_true w :
  has_date w = true ↔ ∃ d, w_date w = Some d ∧ d ≠ "".
Proof.
  unfold has_date. destruct (w_date w) as [d|].
  - destruct (String.eqb_spec d ""); cbn; split.
    + done.
    + intros (d' & [= <-] & Hd). done.
    + eauto.
    + done.
  - split; [done|]. by intros (d & ? & _).
Qed.

Lemma date_differs_false d w wd :
  w_date w = Some wd → date_differs d w = false ↔ d = Some wd.
Proof.
  intros Hw. unfold date_differs. rewrite Hw. destruct d as [d|].
  - destruct (String.eqb_spec d wd); cbn; split; congruence.
  - split; congruence.
Qed.

(** The callback of [isBlocked] decides exactly the match in words. *)
Lemma window_hits_matches lm d w :
  window_hits lm d w = true ↔ window_matches lm d w.
Proof.
  unfold window_hits, window_matches.
  destruct (has_date w) eqn:Hd; cbn [andb].
  - apply has_date_true in Hd as (wd & Hw & Hne).
    destruct (date_differs d w) eqn:Hdiff.
    + split; [done|]. intros [Hdate _].
      specialize (Hdate wd Hw Hne).
      apply (date_differs_false d w wd Hw) in Hdate. congruence.
    + apply (date_differs_false d w wd Hw) in Hdiff.
      split; [|by intros [_ ?]]. intros Hr. split; [|done].
      intros d' Hw' _. congruence.
  - split; [|by intros [_ ?]]. intros Hr. split; [|done].
    intros d' Hw' Hne. assert (has_date w = true) by (apply has_date_true; eauto).
    congruence.
Qed.

Lemma isBlocked_existsb lm ws d :
  isBlocked lm ws d = existsb (window_hits lm d) (windows_of ws).
Proof. by destruct ws as [[|w ws]|]. Qed.

Lemma band_green_iff (t : Z) rules :
  (getBaseScoreAndBand (Int t) rules).2 = Green ↔
  in_range_spec t (start (green rules)) (end_ (green rules)).
Proof.
  rewrite <- in_range_spec_iff. unfold getBaseScoreAndBand.
  destruct (isInRange _ (Int (start (green rules))) _); [done|].
  by destruct (_ || _).
Qed.

Lemma band_yellow_iff (t : Z) rules :
  (getBaseScoreAndBand (Int t) rules).2 = Yellow ↔
  ¬ in_range_spec t (start (green rules)) (end_ (green rules)) ∧
  (in_range_spec t (start (yellow1 rules)) (end_ (yellow1 rules)) ∨
   in_range_spec t (start (yellow2 rules)) (end_ (yellow2 rules))).
Proof.
  rewrite <- !in_range_spec_iff, <- orb_true_iff. unfold getBaseScoreAndBand.
  destruct (isInRange _ (Int (start (green rules))) _).
  - cbn. split; [done|]. by intros [[] _].
  - destruct (_ || _); cbn; split; try done. by intros [_ ?].
Qed.

Lemma boost_in_range (t : Z) pref (r : BoostRange) rules b :
  (pref = "early_bird" ∧ r = earlyBirdBoostRange rules ∨
   pref = "night_owl" ∧ r = nightOwlBoostRange rules) →
  b = bool_decide (in_range_spec t (boost_start r) (boost_end r)) →
  preferenceBoost (Int t) (Some pref) rules = if b then boost r else 0.
Proof.
  intros Hp ->.
  assert (isInRange (Int t) (Int (boost_start r)) (Int (boost_end r)) =
          bool_decide (in_range_spec t (boost_start r) (boost_end r))) as Hb.
  { destruct (isInRange _ _ _) eqn:H; symmetry.
    - apply bool_decide_eq_true. by apply in_range_spec_iff.
    - apply bool_decide_eq_false. rewrite <- in_range_spec_iff. congruence. }
  destruct Hp as [[-> ->] | [-> ->]]; unfold preferenceBoost; cbn; by rewrite Hb.
Qed.

Lemma window_hits_Int (t s e : Z) d w :
  parseHHMMToMinutes (w_start w) = Int s →
  parseHHMMToMinutes (w_end w) = Int e →
  window_hits (Int t) d w = true ↔
    (∀ wd, w_date w = Some wd → wd ≠ "" → d = Some wd) ∧ in_range_spec t s e.
Proof.
  intros Hs He. rewrite window_hits_matches, <- in_range_spec_iff.
  unfold window_matches. by rewrite Hs, He.
Qed.

(** C1.  The range test on minutes [t], [start], [end]: always true when
    [start = end]; [start <= t < end] when [start < end]; [t >= start] or
    [t < end] when [start > end].  Band ranges, preference-boost ranges and
    blocked windows are all decided by this one rule. *)
Theorem isInRange_semantics (t s e : Z) :
  (s = e → isInRange (Int t) (Int s) (Int e) = true) ∧
  (s < e → isInRange (Int t) (Int s) (Int e) = (s <=? t) && (t <? e)) ∧
  (s > e → isInRange (Int t) (Int s) (Int e) = (t >=? s) || (t <? e)) ∧
  (isInRange (Int t) (Int s) (Int e) = true ↔ in_range_spec t s e) ∧
  (∀ rules,
     ((getBaseScoreAndBand (Int t) rules).2 = Green ↔
        in_range_spec t (start (green rules)) (end_ (green rules))) ∧
     ((getBaseScoreAndBand (Int t) rules).2 = Yellow ↔
        ¬ in_range_spec t (start (green rules)) (end_ (green rules)) ∧
        (in_range_spec t (start (yellow1 rules)) (end_ (yellow1 rules)) ∨
         in_range_spec t (start (yellow2 rules)) (end_ (yellow2 rules))))) ∧
  (∀ rules,
     let eb := earlyBirdBoostRange rules in
     let no := nightOwlBoostRange rules in
     (in_range_spec t (boost_start eb) (boost_end eb) →
        preferenceBoost (Int t) (Some "early_bird") rules = boost eb) ∧
     (¬ in_range_spec t (boost_start eb) (boost_end eb) →
        preferenceBoost (Int t) (Some "early_bird") rules = 0) ∧
     (in_range_spec t (boost_start no) (boost_end no) →
        preferenceBoost (Int t) (Some "night_owl") rules = boost no) ∧
     (¬ in_range_spec t (boost_start no) (boost_end no) →
        preferenceBoost (Int t) (Some "night_owl") rules = 0)) ∧
  (∀ d w,
     parseHHMMToMinutes (w_start w) = Int s →
     parseHHMMToMinutes (w_end w) = Int e →
     (window_hits (Int t) d w = true ↔
        (∀ wd, w_date w = Some wd → wd ≠ "" → d = Some wd) ∧
        in_range_spec t s e)).
Proof.
  split_and!.
  - intros ->. apply isInRange_full_day.
  - intros Hlt. rewrite isInRange_Int.
    destruct (Z.eqb_spec s e); [lia|]. by destruct (Z.ltb_spec s e); [|lia].
  - intros Hgt. rewrite isInRange_Int, Z.geb_leb.
    destruct (Z.eqb_spec s e); [lia|]. by destruct (Z.ltb_spec s e); [lia|].
  - apply in_range_spec_iff.
  - intros rules. split; [apply band_green_iff|apply band_yellow_iff].
  - intros rules eb no. split_and!; intros H.
    + rewrite (boost_in_range t _ eb rules true); auto.
      symmetry. by apply bool_decide_eq_true.
    + rewrite (boost_in_range t _ eb rules false); auto.
      symmetry. by apply bool_decide_eq_false.
    + rewrite (boost_in_range t _ no rules true); auto.
      symmetry. by apply bool_decide_eq_true.
    + rewrite (boost_in_range t _ no rules false); auto.
      symmetry. by apply bool_decide_eq_false.
  - intros d w. apply window_hits_Int.
Qed.

(** The wrapped range 23:00-01:00 at 00:30, and the default bands at 23:00. *)
Lemma isInRange_semantics_witness :
  isInRange (Int 30) (Int 1380) (Int 60) = (30 >=? 1380) || (30 <? 60) ∧
  (getBaseScoreAndBand (Int 1380) DEFAULT_RULES).2 = Yellow.
Proof.
  split.
  - destruct (isInRange_semantics 30 1380 60) as (_ & _ & Hwrap & _).
    apply Hwrap. lia.
  - destruct (isInRange_semantics 1380 0 0) as (_ & _ & _ & _ & Hband & _).
    apply Hband. unfold in_range_spec. cbn. lia.
Defined.

(** C6.  [isBlocked] is true exactly when some window of the list
    matches: its range contains the local minute and, if it carries a
    non-empty date, the local date is that date; a window without a date is
    decided by its range alone; an empty or absent list gives false. *)
Theorem isBlocked_iff_window_matches (lm : num) (ws : option (list Window))
    (d : option string) :
  (isBlocked lm ws d = true ↔ ∃ w, w ∈ windows_of ws ∧ window_matches lm d w) ∧
  (∀ w wd, w_date w = Some wd → wd ≠ "" →
     window_hits lm d w = true → d = Some wd) ∧
  (∀ w, w_date w = None ∨ w_date w = Some "" →
     window_hits lm d w =
       isInRange lm (parseHHMMToMinutes (w_start w)) (parseHHMMToMinutes (w_end w))) ∧
  (ws = None ∨ ws = Some [] → isBlocked lm ws d = false).
Proof.
  repeat split.
  - rewrite isBlocked_existsb. intros (w & Hin & Hw)%existsb_exists.
    exists w. split; [by apply list_elem_of_In|by apply window_hits_matches].
  - intros (w & Hin & Hw). rewrite isBlocked_existsb. apply existsb_exists.
    exists w. split; [by apply list_elem_of_In|by apply window_hits_matches].
  - intros w wd Hw Hne [Hdate _]%window_hits_matches. by apply Hdate.
  - intros w Hw. unfold window_hits, has_date.
    by destruct Hw as [-> | ->].
  - by intros [-> | ->].
Qed.

(** Alice's lunch window at 12:30, and a dated window on another day. *)
Lemma isBlocked_iff_window_matches_witness :
  isBlocked (Int 750) (noMeetingWindows alice) (Some sample_date) = true ∧
  isBlocked (Int 750) (Some []) (Some sample_date) = false.
Proof.
  split.
  - apply (isBlocked_iff_window_matches (Int 750) (noMeetingWindows alice)
             (Some sample_date)).
    exists (mkWindow "12:00" "13:00" None). split.
    + cbn. apply list_elem_of_here.
    + split; [discriminate|reflexivity].
  - apply (isBlocked_iff_window_matches (Int 750) (Some []) (Some sample_date)).
    by right.
Defined.

(** ** The slot aggregator *)

(** A blocked participant adds the blocked score and one to the blocked
    counter, and nothing else changes. *)
Lemma score_local_blocked rules acc u t :
  blocked_at (u, t) = true →
  score_local rules acc u t =
    mkAcc (a_totalScore acc + blockedScore rules) (a_greenCount acc)
      (a_yellowCount acc) (a_redCount acc) (a_blockedCount acc + 1)
      (a_redParticipants acc).
Proof. unfold blocked_at, score_local. cbn. by intros ->. Qed.

Lemma score_local_totals rules acc u t :
  let acc' := score_local rules acc u t in
  a_totalScore acc' = a_totalScore acc + contribution rules (u, t) ∧
  a_blockedCount acc' = a_blockedCount acc + (if blocked_at (u, t) then 1 else 0) ∧
  a_greenCount acc' = a_greenCount acc + (if in_band rules Green (u, t) then 1 else 0) ∧
  a_yellowCount acc' = a_yellowCount acc + (if in_band rules Yellow (u, t) then 1 else 0) ∧
  a_redCount acc' = a_redCount acc + (if in_band rules Red (u, t) then 1 else 0).
Proof.
  unfold score_local, contribution, in_band, band_at, blocked_at.
  cbn [fst snd].
  destruct (isBlocked _ _ _); cbn [negb andb]; [cbn; lia|].
  destruct (getBaseScoreAndBand (localMin t) rules) as [base []];
    cbn; repeat (case_bool_decide; try congruence); cbn; lia.
Qed.

Lemma count_if_cons {A} (P : A → bool) x l :
  count_if P (x :: l) = (if P x then 1 else 0) + count_if P l.
Proof. unfold count_if. cbn. destruct (P x); cbn [length]; lia. Qed.

Lemma foldl_score_local rules uts acc :
  let acc' := foldl (λ a ut, score_local rules a ut.1 ut.2) acc uts in
  a_totalScore acc' = a_totalScore acc + sumZ (List.map (contribution rules) uts) ∧
  a_blockedCount acc' = a_blockedCount acc + count_if blocked_at uts ∧
  a_greenCount acc' = a_greenCount acc + count_if (in_band rules Green) uts ∧
  a_yellowCount acc' = a_yellowCount acc + count_if (in_band rules Yellow) uts ∧
  a_redCount acc' = a_redCount acc + count_if (in_band rules Red) uts.
Proof.
  revert acc. induction uts as [|[u t] uts IH]; intros acc.
  - cbn. unfold count_if. cbn. lia.
  - cbn [foldl fst snd]. cbn zeta.
    specialize (IH (score_local rules acc u t)). cbn zeta in IH.
    destruct IH as (-> & -> & -> & -> & ->).
    destruct (score_local_totals rules acc u t) as (-> & -> & -> & -> & ->).
    rewrite (count_if_cons blocked_at), !(count_if_cons (in_band rules _)).
    cbn [List.map sumZ foldr]. fold (sumZ (List.map (contribution rules) uts)).
    lia.
Qed.

(** Every participant is blocked or in exactly one band. *)
Lemma verdicts_partition rules (uts : list (User * LocalTime)) :
  count_if blocked_at uts + count_if (λ ut, negb (blocked_at ut)) uts
    = Z.of_nat (length uts) ∧
  count_if (in_band rules Green) uts + count_if (in_band rules Yellow) uts
    + count_if (in_band rules Red) uts
    = count_if (λ ut, negb (blocked_at ut)) uts.
Proof.
  induction uts as [|ut uts [IH1 IH2]]; [done|].
  rewrite (count_if_cons blocked_at), (count_if_cons (λ ut, negb (blocked_at ut))),
    !(count_if_cons (in_band rules _)).
  assert (∀ b, in_band rules b ut
               = negb (blocked_at ut) && bool_decide (band_at rules ut = b)) as Hb
    by done.
  rewrite !Hb. cbn [length].
  destruct (blocked_at ut); cbn [negb andb]; [lia|].
  destruct (band_at rules ut);
    repeat (case_bool_decide; try congruence); lia.
Qed.

Section ScoringFacts.
Variable conv : string → Z → option string → option LocalTime.
Variable today : string.

(** The loop over the participants is the conversion of all local times
    followed by a pure accumulation. *)
Lemma for_of_score_user date rules utc ps acc :
  for_of (score_user conv date rules utc) acc ps =
    ts ← local_times conv date utc ps;
    Some (foldl (λ a ut, score_local rules a ut.1 ut.2) acc (zip ps ts)).
Proof.
  revert acc. induction ps as [|u ps IH]; intros acc; [done|].
  cbn [for_of]. unfold local_times. cbn [mapM].
  change (score_user conv date rules utc acc u)
    with (conv date utc (timezone u) ≫= λ t, Some (score_local rules acc u t)).
  destruct (conv date utc (timezone u)) as [t|]; [|done]. cbn.
  rewrite IH. unfold local_times.
  by destruct (mapM _ ps).
Qed.

Lemma local_times_length date utc ps ts :
  local_times conv date utc ps = Some ts → length ts = length ps.
Proof. intros H. symmetry. by eapply length_mapM. Qed.

(** What a computed slot record contains. *)
Lemma score_slot_inv date rules inc ps utc s :
  score_slot conv date rules inc ps utc = Some s →
  ∃ ts, local_times conv date utc ps = Some ts ∧
    utcStartMin s = utc ∧
    participantsCount s = Z.of_nat (length ps) ∧
    totalScore s = sumZ (List.map (contribution rules) (zip ps ts)) ∧
    blockedCount s = count_if blocked_at (zip ps ts) ∧
    greenCount s = count_if (in_band rules Green) (zip ps ts) ∧
    yellowCount s = count_if (in_band rules Yellow) (zip ps ts) ∧
    redCount s = count_if (in_band rules Red) (zip ps ts).
Proof.
  unfold score_slot. rewrite for_of_score_user.
  destruct (local_times conv date utc ps) as [ts|] eqn:Hts; [|done].
  cbn. intros [= <-]. exists ts. cbn.
  destruct (foldl_score_local rules (zip ps ts) (acc0 inc))
    as (-> & -> & -> & -> & ->).
  cbn. split_and!; try done; lia.
Qed.

Lemma score_slot_is_Some date rules inc ps utc :
  (∀ u, u ∈ ps → is_Some (conv date utc (timezone u))) →
  is_Some (score_slot conv date rules inc ps utc).
Proof.
  intros Hconv. unfold score_slot. rewrite for_of_score_user.
  assert (is_Some (local_times conv date utc ps)) as [ts ->]; [|by eexists].
  apply mapM_is_Some. apply Forall_forall. intros u Hu. by apply Hconv.
Qed.

Lemma scoreSlots48_inv users opts res :
  scoreSlots48 conv today users opts = Some res →
  dateISO res = opt_dateISO today opts ∧
  participants res = select_participants users opts ∧
  Forall2 (λ utc s, score_slot conv (opt_dateISO today opts) (opt_rules opts)
                      (opt_includeRedParticipants opts)
                      (select_participants users opts) utc = Some s)
    generateUtcSlots48 (slots res).
Proof.
  unfold scoreSlots48.
  destruct (mapM _ generateUtcSlots48) as [results|] eqn:Hm; [|done].
  cbn. intros [= <-]. cbn. split_and!; try done. by apply mapM_Some.
Qed.

(** The run succeeds as soon as every conversion it asks for does. *)
Lemma scoreSlots48_is_Some users opts :
  (∀ utc u, utc ∈ generateUtcSlots48 → u ∈ select_participants users opts →
            is_Some (conv (opt_dateISO today opts) utc (timezone u))) →
  is_Some (scoreSlots48 conv today users opts).
Proof.
  intros Hconv. unfold scoreSlots48.
  assert (is_Some (mapM (score_slot conv (opt_dateISO today opts) (opt_rules opts)
                           (opt_includeRedParticipants opts)
                           (select_participants users opts))
                        generateUtcSlots48)) as [results ->]; [|by eexists].
  apply mapM_is_Some. apply Forall_forall. intros utc Hutc.
  apply score_slot_is_Some. intros u Hu. by apply Hconv.
Qed.

Lemma scoreSlots48_slot_inv users opts res s :
  scoreSlots48 conv today users opts = Some res → s ∈ slots res →
  utcStartMin s ∈ generateUtcSlots48 ∧
  score_slot conv (dateISO res) (opt_rules opts)
    (opt_includeRedParticipants opts) (participants res) (utcStartMin s) = Some s.
Proof.
  intros (-> & -> & Hall)%scoreSlots48_inv Hs.
  apply list_elem_of_lookup in Hs as [i Hi].
  destruct (Forall2_lookup_r _ _ _ _ _ Hall Hi) as (utc & Hutc & Hslot).
  destruct (score_slot_inv _ _ _ _ _ _ Hslot) as (_ & _ & -> & _).
  split; [|done]. by eapply list_elem_of_lookup_2.
Qed.

Lemma scoreSlots48_length users opts res :
  scoreSlots48 conv today users opts = Some res → length (slots res) = 48%nat.
Proof.
  intros (_ & _ & Hall)%scoreSlots48_inv.
  by rewrite <- (Forall2_length _ _ _ Hall).
Qed.
End ScoringFacts.

Lemma zip_length_same {A B} (l : list A) (k : list B) :
  length k = length l → length (zip l k) = length l.
Proof. intros H. rewrite length_zip_with. lia. Qed.

(** C2.  In every slot record that [scoreSlots48] produces, of which
    there are 48, the green, yellow, red and blocked counts add up to
    [participantsCount], the length of the filtered and extended
    participant list: the blocked count is the number of blocked
    participants and the three band counts together are the number of the
    others, so each participant is counted exactly once. *)
Theorem slot_counts_sum_to_participants
    (conv : string → Z → option string → option LocalTime) (today : string)
    (users : list User) (opts : Opts) (res : Scored) :
  scoreSlots48 conv today users opts = Some res →
  participants res = select_participants users opts ∧
  length (slots res) = 48%nat ∧
  ∀ s, s ∈ slots res →
    participantsCount s = Z.of_nat (length (participants res)) ∧
    greenCount s + yellowCount s + redCount s + blockedCount s
      = participantsCount s ∧
    ∃ ts, local_times conv (dateISO res) (utcStartMin s) (participants res) = Some ts ∧
      length (zip (participants res) ts) = length (participants res) ∧
      blockedCount s = count_if blocked_at (zip (participants res) ts) ∧
      greenCount s + yellowCount s + redCount s
        = count_if (λ ut, negb (blocked_at ut)) (zip (participants res) ts).
Proof.
  intros Hres. split_and!.
  - by apply scoreSlots48_inv in Hres as (_ & ? & _).
  - by eapply scoreSlots48_length.
  - intros s Hs.
    destruct (scoreSlots48_slot_inv _ _ _ _ _ _ Hres Hs) as [_ Hslot].
    apply score_slot_inv in Hslot
      as (ts & Hts & _ & Hn & _ & Hb & Hg & Hy & Hr).
    pose proof (local_times_length _ _ _ _ _ Hts) as Hlen.
    pose proof (zip_length_same (participants res) ts Hlen) as Hzip.
    destruct (verdicts_partition (opt_rules opts) (zip (participants res) ts))
      as [Hp1 Hp2].
    split_and!; [done|lia|].
    exists ts. split_and!; [done|done|done|lia].
Qed.

(** C3.  The total score of a slot is the sum, over the participants, of
    the blocked score for a blocked participant and of base score plus
    preference boost for any other; the band counters count unblocked
    participants only, and the loop step of a blocked participant changes
    nothing but the total and the blocked counter. *)
Theorem slot_total_is_sum_of_contributions
    (conv : string → Z → option string → option LocalTime) (today : string)
    (users : list User) (opts : Opts) (res : Scored) (s : Slot) :
  scoreSlots48 conv today users opts = Some res → s ∈ slots res →
  ∃ ts, local_times conv (dateISO res) (utcStartMin s) (participants res) = Some ts ∧
    let uts := zip (participants res) ts in
    let rules := opt_rules opts in
    length uts = length (participants res) ∧
    totalScore s = sumZ (List.map (contribution rules) uts) ∧
    blockedCount s = count_if blocked_at uts ∧
    greenCount s = count_if (in_band rules Green) uts ∧
    yellowCount s = count_if (in_band rules Yellow) uts ∧
    redCount s = count_if (in_band rules Red) uts ∧
    (∀ ut, blocked_at ut = true →
       contribution rules ut = blockedScore rules ∧
       ∀ b, in_band rules b ut = false) ∧
    (∀ ut, blocked_at ut = false →
       contribution rules ut =
         (getBaseScoreAndBand (localMin ut.2) rules).1
         + preferenceBoost (localMin ut.2) (preference ut.1) rules) ∧
    (∀ acc u t, blocked_at (u, t) = true →
       score_local rules acc u t =
         mkAcc (a_totalScore acc + blockedScore rules) (a_greenCount acc)
           (a_yellowCount acc) (a_redCount acc) (a_blockedCount acc + 1)
           (a_redParticipants acc)).
Proof.
  intros Hres Hs.
  destruct (scoreSlots48_slot_inv _ _ _ _ _ _ Hres Hs) as [_ Hslot].
  apply score_slot_inv in Hslot as (ts & Hts & _ & _ & Ht & Hb & Hg & Hy & Hr).
  exists ts. split; [done|]. cbn zeta. split_and!; try done.
  - apply zip_length_same. by eapply local_times_length.
  - intros ut Hbl. unfold contribution, in_band. by rewrite Hbl.
  - intros ut Hbl. unfold contribution. by rewrite Hbl.
  - intros acc u t. apply score_local_blocked.
Qed.

Lemma mapM_total {A B} (f : A → B) (g : A → option B) (l : list A) :
  (∀ x, x ∈ l → g x = Some (f x)) → mapM g l = Some (List.map f l).
Proof.
  intros Hg. apply mapM_Some. induction l as [|x l IH]; cbn; [constructor|].
  constructor.
  - apply Hg. apply list_elem_of_here.
  - apply IH. intros y Hy. apply Hg. by apply list_elem_of_further.
Qed.

(** C9.  With no participant left after selection the run does not fail:
    it returns 48 slot records, one per UTC slot, each with total score 0,
    all four counts 0 and participant count 0. *)
Theorem no_participants_all_zero
    (conv : string → Z → option string → option LocalTime) (today : string)
    (users : list User) (opts : Opts) :
  select_participants users opts = [] →
  ∃ res, scoreSlots48 conv today users opts = Some res ∧
    participants res = [] ∧
    length (slots res) = 48%nat ∧
    List.map utcStartMin (slots res) = generateUtcSlots48 ∧
    ∀ s, s ∈ slots res →
      totalScore s = 0 ∧ greenCount s = 0 ∧ yellowCount s = 0 ∧
      redCount s = 0 ∧ blockedCount s = 0 ∧ participantsCount s = 0.
Proof.
  intros Hsel. unfold scoreSlots48. rewrite Hsel.
  rewrite (mapM_total (empty_slot (opt_includeRedParticipants opts))); [|done].
  eexists. split; [reflexivity|]. cbn [participants slots].
  split_and!; [done|by rewrite length_map| |].
  - generalize generateUtcSlots48 as l.
    induction l as [|utc l IH]; cbn; [done|by rewrite IH].
  - intros s (utc & <- & _)%list_elem_of_In%in_map_iff. by cbn.
Qed.

Lemma sample_result_eq :
  scoreSlots48 sample_conversion sample_date sample_users sample_opts
    = Some sample_result.
Proof. vm_compute. reflexivity. Qed.

Lemma sample_noon_slot_in : sample_noon_slot ∈ slots sample_result.
Proof. apply (list_elem_of_lookup_2 _ 24%nat). vm_compute. reflexivity. Qed.

(** The sample run: three participants, 48 slots, and at 12:00 UTC one
    green and two blocked participants. *)
Lemma slot_counts_sum_to_participants_witness :
  scoreSlots48 sample_conversion sample_date sample_users sample_opts
    = Some sample_result ∧
  length (slots sample_result) = 48%nat ∧
  greenCount sample_noon_slot + yellowCount sample_noon_slot
    + redCount sample_noon_slot + blockedCount sample_noon_slot
    = participantsCount sample_noon_slot.
Proof.
  pose proof sample_result_eq as Hres. split; [exact Hres|].
  destruct (slot_counts_sum_to_participants _ _ _ _ _ Hres) as (_ & Hlen & Hslots).
  split; [exact Hlen|].
  destruct (Hslots sample_noon_slot sample_noon_slot_in) as (_ & Hsum & _).
  exact Hsum.
Defined.

Lemma slot_total_is_sum_of_contributions_witness :
  scoreSlots48 sample_conversion sample_date sample_users sample_opts
    = Some sample_result ∧
  sample_noon_slot ∈ slots sample_result ∧
  ∃ ts, local_times sample_conversion sample_date 720 [alice; bob; carol] = Some ts ∧
    totalScore sample_noon_slot
      = sumZ (List.map (contribution DEFAULT_RULES) (zip [alice; bob; carol] ts)).
Proof.
  pose proof sample_result_eq as Hres. pose proof sample_noon_slot_in as Hin.
  split; [exact Hres|]. split; [exact Hin|].
  destruct (slot_total_is_sum_of_contributions _ _ _ _ _ _ Hres Hin)
    as (ts & Hts & _ & Htotal & _).
  exists ts. split; [exact Hts|exact Htotal].
Defined.

(** Selecting only the team "Sales" leaves nobody. *)
Lemma no_participants_all_zero_witness :
  select_participants sample_users
    (mkOpts None None None (Some "Sales") None None None None) = [] ∧
  ∃ res, scoreSlots48 sample_conversion sample_date sample_users
           (mkOpts None None None (Some "Sales") None None None None) = Some res ∧
         length (slots res) = 48%nat.
Proof.
  assert (select_participants sample_users
            (mkOpts None None None (Some "Sales") None None None None) = [])
    as Hsel by reflexivity.
  split; [exact Hsel|].
  destruct (no_participants_all_zero sample_conversion sample_date _ _ Hsel)
    as (res & Hres & _ & Hlen & _).
  exists res. split; [exact Hres|exact Hlen].
Defined.

(** ** The score of the second yellow range *)

Lemma for_of_ext {S A} (f g : S → A → option S) s l :
  (∀ s x, f s x = g s x) → for_of f s l = for_of g s l.
Proof.
  intros Hfg. revert s. induction l as [|x l IH]; intros s; [done|].
  cbn. rewrite Hfg. destruct (g s x); cbn; [apply IH|done].
Qed.

Lemma getBaseScoreAndBand_yellow2_score lm rules s :
  getBaseScoreAndBand lm (with_yellow2_score rules s) = getBaseScoreAndBand lm rules.
Proof. reflexivity. Qed.

Lemma score_slot_yellow2_score conv date rules s inc ps utc :
  score_slot conv date (with_yellow2_score rules s) inc ps utc
    = score_slot conv date rules inc ps utc.
Proof.
  unfold score_slot.
  by rewrite (for_of_ext (score_user conv date (with_yellow2_score rules s) utc)
                (score_user conv date rules utc)).
Qed.

(** C10.  A minute in the second yellow range and outside the green one
    gets the score of the first yellow range; the score field of the second
    is never read, so overriding it changes no band result and no output of
    [scoreSlots48]. *)
Theorem yellow2_score_never_read
    (conv : string → Z → option string → option LocalTime) (today : string)
    (lm : num) (rules : Rules) (s : Z) (users : list User) (opts : Opts) :
  isInRange lm (Int (start (yellow2 rules))) (Int (end_ (yellow2 rules))) = true →
  isInRange lm (Int (start (green rules))) (Int (end_ (green rules))) = false →
  getBaseScoreAndBand lm rules = (score (yellow1 rules), Yellow) ∧
  getBaseScoreAndBand lm (with_yellow2_score rules s) = (score (yellow1 rules), Yellow) ∧
  (∀ lm', getBaseScoreAndBand lm' (with_yellow2_score rules s)
          = getBaseScoreAndBand lm' rules) ∧
  scoreSlots48 conv today users (with_rules opts (with_yellow2_score rules s))
    = scoreSlots48 conv today users (with_rules opts rules).
Proof.
  intros Hy2 Hg.
  assert (getBaseScoreAndBand lm rules = (score (yellow1 rules), Yellow)) as Hb.
  { unfold getBaseScoreAndBand. rewrite Hg, Hy2. by rewrite orb_true_r. }
  split_and!; [done|by rewrite getBaseScoreAndBand_yellow2_score|done|].
  unfold scoreSlots48.
  change (select_participants users (with_rules opts (with_yellow2_score rules s)))
    with (select_participants users opts).
  change (select_participants users (with_rules opts rules))
    with (select_participants users opts).
  change (opt_rules (with_rules opts (with_yellow2_score rules s)))
    with (with_yellow2_score rules s).
  change (opt_rules (with_rules opts rules)) with rules.
  rewrite (mapM_ext _ _ _ (score_slot_yellow2_score conv _ rules s _ _)).
  reflexivity.
Qed.

(** 20:00 under the default rules, with the second yellow score set to 50. *)
Lemma yellow2_score_never_read_witness :
  getBaseScoreAndBand (Int 1200) (with_yellow2_score DEFAULT_RULES 50) = (2, Yellow) ∧
  scoreSlots48 sample_conversion sample_date sample_users
    (with_rules sample_opts (with_yellow2_score DEFAULT_RULES 50))
  = scoreSlots48 sample_conversion sample_date sample_users
      (with_rules sample_opts DEFAULT_RULES).
Proof.
  destruct (yellow2_score_never_read sample_conversion sample_date (Int 1200)
              DEFAULT_RULES 50 sample_users sample_opts eq_refl eq_refl)
    as (_ & Hband & _ & Hrun).
  split; [exact Hband|exact Hrun].
Defined.

(** ** Reading digits and text that is not numeric *)

Lemma digit_val_char (c : ascii) (d : Z) :
  digit_val c = Some d →
  is_ws c = false ∧ Ascii.eqb c ":" = false ∧ c ≠ "+"%char ∧ c ≠ "-"%char
  ∧ 0 <= d <= 9.
Proof.
  destruct c as [[] [] [] [] [] [] [] []]; vm_compute; intros [= <-];
    split_and!; (reflexivity || discriminate).
Qed.

Lemma trim_right_digits (s : string) (acc h : Z) :
  digits_val acc s = Some h → trim_right s = s.
Proof.
  revert acc. induction s as [|c s IH]; intros acc; [done|].
  cbn [digits_val trim_right].
  destruct (digit_val c) as [d|] eqn:Hc; [|done].
  intros Hs. rewrite (IH _ Hs).
  apply digit_val_char in Hc as (Hws & _).
  destruct s; [by rewrite Hws|done].
Qed.

Lemma trim_digits (s : string) (acc h : Z) :
  digits_val acc s = Some h → trim s = s.
Proof.
  intros Hs. unfold trim.
  assert (trim_left s = s) as ->; [|by eapply trim_right_digits].
  destruct s as [|c s]; [done|]. cbn in *.
  destruct (digit_val c) as [d|] eqn:Hc; [|done].
  apply digit_val_char in Hc as (-> & _). done.
Qed.

Lemma Number_unsigned (c : ascii) (r : string) :
  c ≠ "+"%char → c ≠ "-"%char → trim (String c r) = String c r →
  Number (String c r) = unsigned_digits (String c r).
Proof.
  intros Hp Hm Ht. unfold Number. rewrite Ht.
  destruct c as [[] [] [] [] [] [] [] []]; try reflexivity; congruence.
Qed.

(** [Number] reads a non-empty run of decimal digits as its value. *)
Lemma Number_digits (s : string) (h : Z) :
  s ≠ "" → digits_val 0 s = Some h → Number s = Int h.
Proof.
  intros Hne Hs. pose proof (trim_digits s 0 h Hs) as Ht.
  destruct s as [|c r]; [done|].
  assert (∃ d, digit_val c = Some d) as [d Hc].
  { cbn in Hs. destruct (digit_val c); [by eexists|done]. }
  apply digit_val_char in Hc as (_ & _ & Hp & Hm & _).
  rewrite Number_unsigned by done.
  unfold unsigned_digits. by rewrite Hs.
Qed.

Lemma split_digits_colon (hh : string) (acc h : Z) (rest : string) :
  digits_val acc hh = Some h →
  split ":" (hh +:+ String ":" rest) = hh :: split ":" rest.
Proof.
  revert acc. induction hh as [|c hh IH]; intros acc; [done|].
  cbn [digits_val]. destruct (digit_val c) as [d|] eqn:Hc; [|done].
  intros Hs.
  change (String c hh +:+ String ":" rest)
    with (String c (hh +:+ String ":" rest)).
  cbn [split]. apply digit_val_char in Hc as (_ & -> & _).
  by rewrite (IH _ Hs).
Qed.

Lemma split_digits (hh : string) (acc h : Z) :
  digits_val acc hh = Some h → split ":" hh = [hh].
Proof.
  revert acc. induction hh as [|c hh IH]; intros acc; [done|].
  cbn [digits_val]. destruct (digit_val c) as [d|] eqn:Hc; [|done].
  intros Hs. cbn [split]. apply digit_val_char in Hc as (_ & -> & _).
  by rewrite (IH _ Hs).
Qed.

Lemma or_zero_Int (m : Z) : or_zero (Some (Int m)) = Int m.
Proof.
  unfold or_zero, num_truthy. destruct (Z.eqb_spec m 0) as [->|]; done.
Qed.

Lemma trim_right_head (c : ascii) (r : string) :
  is_ws c = false → ∃ r', trim_right (String c r) = String c r'.
Proof.
  intros Hc. cbn [trim_right]. destruct (trim_right r); [|by eexists].
  rewrite Hc. by eexists.
Qed.

Lemma not_numeric_start_ws (c : ascii) :
  not_numeric_start c = true → is_ws c = false.
Proof.
  unfold not_numeric_start. destruct (is_ws c); [|done].
  by rewrite andb_false_r.
Qed.

(** [Number] of text that is certainly not numeric is NaN. *)
Lemma Number_not_numeric (s : string) :
  plainly_not_numeric s = true → Number s = NaN.
Proof.
  unfold plainly_not_numeric, Number, trim.
  destruct (trim_left s) as [|c r]; [done|]. intros Hc.
  destruct (trim_right_head c r (not_numeric_start_ws c Hc)) as [r' ->].
  destruct c as [[] [] [] [] [] [] [] []]; cbv in Hc; try discriminate Hc;
    reflexivity.
Qed.

Lemma parse_digits_fields (s hh mm : string) (rest : list string) (h m : Z) :
  split ":" s = hh :: mm :: rest →
  hh ≠ "" → mm ≠ "" → digits_val 0 hh = Some h → digits_val 0 mm = Some m →
  parseHHMMToMinutes s = Int (h * 60 + m).
Proof.
  intros Hs Hh Hm Hhv Hmv. unfold parseHHMMToMinutes. rewrite Hs.
  cbn [List.map head]. rewrite (Number_digits hh h), (Number_digits mm m) by done.
  by rewrite or_zero_Int.
Qed.

(** ** Malformed window strings *)

Lemma parse_hour_NaN s hh rest :
  split ":" s = hh :: rest → Number hh = NaN → parseHHMMToMinutes s = NaN.
Proof. unfold parseHHMMToMinutes. intros -> Hh. cbn. by rewrite Hh. Qed.

Lemma parse_minute_NaN s hh mm rest h :
  split ":" s = hh :: mm :: rest → Number hh = Int h → Number mm = NaN →
  parseHHMMToMinutes s = Int (h * 60).
Proof.
  unfold parseHHMMToMinutes. intros -> Hh Hm. cbn. rewrite Hh, Hm. cbn.
  f_equal. lia.
Qed.

Lemma window_hits_NaN_start t e d w :
  has_date w = false →
  parseHHMMToMinutes (w_start w) = NaN → parseHHMMToMinutes (w_end w) = Int e →
  window_hits (Int t) d w = (t <? e).
Proof. unfold window_hits. by intros -> -> ->. Qed.

Lemma window_hits_NaN_both lm d w :
  parseHHMMToMinutes (w_start w) = NaN → parseHHMMToMinutes (w_end w) = NaN →
  window_hits lm d w = false.
Proof.
  unfold window_hits. intros -> ->. rewrite isInRange_NaN_both.
  by destruct (_ && _).
Qed.

(** C8, as the code has it.  A malformed window string is not rejected.
    Text counts as not numeric here when, after leading white space, it
    begins with an ASCII character that no numeric literal begins with.
    [parseHHMMToMinutes] returns NaN when the hour text is not numeric,
    and sixty times the hour when the hour is a run of digits (up to 2^53
    minutes) and the minute text is not numeric; a window whose start and
    end both have an hour text that is not numeric never blocks, and an
    undated one with such a start and a well-formed end blocks every
    minute before that end.  [scoreSlots48] raises no condition for such a
    window: it returns a result whenever the time conversion returns one
    for every participant at every slot. *)
Theorem malformed_windows_parsed_loosely
    (conv : string → Z → option string → option LocalTime) (today : string)
    (users : list User) (opts : Opts) :
  (∀ utc u, utc ∈ generateUtcSlots48 → u ∈ select_participants users opts →
            is_Some (conv (opt_dateISO today opts) utc (timezone u))) →
  is_Some (scoreSlots48 conv today users opts) ∧
  (∀ s hh rest, split ":" s = hh :: rest → plainly_not_numeric hh = true →
     parseHHMMToMinutes s = NaN) ∧
  (∀ s hh mm rest h, split ":" s = hh :: mm :: rest →
     hh ≠ "" → digits_val 0 hh = Some h → h * 60 <= 2 ^ 53 →
     plainly_not_numeric mm = true →
     parseHHMMToMinutes s = Int (h * 60)) ∧
  (∀ lm d w hs rs he re,
     split ":" (w_start w) = hs :: rs → plainly_not_numeric hs = true →
     split ":" (w_end w) = he :: re → plainly_not_numeric he = true →
     window_hits lm d w = false) ∧
  (∀ t d w hs rs he me re h m, has_date w = false →
     split ":" (w_start w) = hs :: rs → plainly_not_numeric hs = true →
     split ":" (w_end w) = he :: me :: re →
     he ≠ "" → me ≠ "" → digits_val 0 he = Some h → digits_val 0 me = Some m →
     h * 60 + m <= 2 ^ 53 →
     window_hits (Int t) d w = (t <? h * 60 + m)).
Proof.
  intros Hconv. split_and!.
  - by apply scoreSlots48_is_Some.
  - intros s hh rest Hs Hh. eapply parse_hour_NaN; [done|].
    by apply Number_not_numeric.
  - intros s hh mm rest h Hs Hne Hh _ Hm.
    eapply parse_minute_NaN; [done|by apply Number_digits|].
    by apply Number_not_numeric.
  - intros lm d w hs rs he re Hs Hhs He Hhe.
    apply window_hits_NaN_both.
    + eapply parse_hour_NaN; [done|]. by apply Number_not_numeric.
    + eapply parse_hour_NaN; [done|]. by apply Number_not_numeric.
  - intros t d w hs rs he me re h m Hd Hs Hhs He Hhe Hme Hh Hm _.
    apply window_hits_NaN_start; [done| |].
    + eapply parse_hour_NaN; [done|]. by apply Number_not_numeric.
    + by eapply parse_digits_fields.
Qed.

Lemma sample_conversion_total :
  ∀ utc u, utc ∈ generateUtcSlots48 →
    u ∈ select_participants sample_users sample_opts →
    is_Some (sample_conversion (opt_dateISO sample_date sample_opts) utc (timezone u)).
Proof.
  assert (Forall (λ utc, Forall (λ u,
            is_Some (sample_conversion (opt_dateISO sample_date sample_opts)
                       utc (timezone u)))
            (select_participants sample_users sample_opts))
          generateUtcSlots48) as Hall.
  { refine (bool_decide_unpack _ _). vm_compute. exact I. }
  intros utc u Hutc Hu.
  rewrite Forall_forall in Hall. specialize (Hall utc Hutc).
  rewrite Forall_forall in Hall. by apply Hall.
Qed.

(** The sample run has Carol, whose window starts at "ab:cd". *)
Lemma malformed_windows_parsed_loosely_witness :
  is_Some (scoreSlots48 sample_conversion sample_date sample_users sample_opts) ∧
  parseHHMMToMinutes "ab:cd" = NaN.
Proof.
  destruct (malformed_windows_parsed_loosely sample_conversion sample_date
              sample_users sample_opts sample_conversion_total)
    as (Hrun & Hhour & _).
  split; [exact Hrun|].
  apply (Hhour "ab:cd" "ab" ["cd"]); reflexivity.
Defined.

(** C8, as stated, fails: Carol's window "ab:cd"-"13:00" has a non-numeric
    start, yet the run returns a result, in which Carol counts as blocked
    at 01:40 and not at 13:20; "12:xx" is read as 12:00. *)
Lemma malformed_window_not_rejected :
  malformed "ab:cd" = true ∧
  parseHHMMToMinutes "ab:cd" = NaN ∧
  malformed "12:xx" = true ∧
  parseHHMMToMinutes "12:xx" = Int 720 ∧
  isBlocked (Int 100) (noMeetingWindows carol) (Some sample_date) = true ∧
  isBlocked (Int 800) (noMeetingWindows carol) (Some sample_date) = false ∧
  scoreSlots48 sample_conversion sample_date sample_users sample_opts
    = Some sample_result ∧
  ¬ rejects_malformed_windows sample_conversion sample_date.
Proof.
  split_and!.
  1-6: reflexivity.
  - apply sample_result_eq.
  - intros Hrej.
    specialize (Hrej sample_users sample_opts carol
                  [mkWindow "ab:cd" "13:00" None] (mkWindow "ab:cd" "13:00" None)).
    rewrite sample_result_eq in Hrej.
    assert (Some sample_result = None) as Habs; [|discriminate Habs].
    apply Hrej; [|reflexivity|apply list_elem_of_here|reflexivity].
    change (select_participants sample_users sample_opts) with [alice; bob; carol].
    do 2 apply list_elem_of_further. apply list_elem_of_here.
Qed.

(** ** The store of arrays *)

Lemma alloc_spec {A} (σ : gmap positive (list A)) (l : list A) r σ' :
  alloc σ l = (r, σ') → σ !! r = None ∧ σ' = <[r := l]> σ.
Proof.
  unfold alloc. intros [= <- <-]. split; [|done].
  apply not_elem_of_dom, is_fresh.
Qed.

(** The selection allocates its result and leaves every array that
    existed before as it was. *)
Lemma select_participants_st_spec (σ : gmap positive (list User))
    (users : positive) (us : list User) (opts : Opts) :
  σ !! users = Some us →
  ∃ r σ', select_participants_st σ users opts = Some (r, σ') ∧
    σ' !! r = Some (select_participants us opts) ∧
    σ !! r = None ∧
    ∀ r0, is_Some (σ !! r0) → σ' !! r0 = σ !! r0.
Proof.
  intros Hus. unfold select_participants_st, select_participants.
  rewrite Hus. cbn [mbind option_bind].
  destruct (alloc σ (filter_users us opts)) as [p σ1] eqn:Ha1.
  apply alloc_spec in Ha1 as [Hp ->].
  rewrite lookup_insert_eq. cbn [mbind option_bind].
  destruct (yourself_to_add _ _ _ us (filter_users us opts)) as [yourself|].
  - destruct (alloc (<[p:=filter_users us opts]> σ)
                (filter_users us opts ++ [yourself])) as [r σ2] eqn:Ha2.
    apply alloc_spec in Ha2 as [Hr ->].
    exists r, (<[r:=(filter_users us opts ++ [yourself])%list]>
                 (<[p:=filter_users us opts]> σ)).
    assert (r ≠ p) by (intros ->; by rewrite lookup_insert_eq in Hr).
    rewrite lookup_insert_ne in Hr by done.
    split_and!; [done|by rewrite lookup_insert_eq|done|].
    intros r0 [l0 Hr0].
    rewrite !lookup_insert_ne; [done|congruence|congruence].
  - exists p, (<[p:=filter_users us opts]> σ).
    split_and!; [done|by rewrite lookup_insert_eq|done|].
    intros r0 [l0 Hr0]. rewrite lookup_insert_ne; [done|congruence].
Qed.

(** Ranking allocates a copy, orders the copy, and leaves every array that
    existed before as it was. *)
Lemma rankSlots_st_spec (σ : gmap positive (list Slot)) (slots : positive)
    (l : list Slot) :
  σ !! slots = Some l →
  ∃ r σ', rankSlots_st σ slots = Some (r, σ') ∧
    σ' !! r = Some (rankSlots l) ∧
    σ !! r = None ∧
    ∀ r0, is_Some (σ !! r0) → σ' !! r0 = σ !! r0.
Proof.
  intros Hl. unfold rankSlots_st. rewrite Hl. cbn [mbind option_bind].
  destruct (alloc σ l) as [copy σ1] eqn:Ha.
  apply alloc_spec in Ha as [Hc ->].
  exists copy, (alter (sort compareSlots) copy (<[copy:=l]> σ)).
  split_and!; [done| |done|].
  - by rewrite lookup_alter_eq, lookup_insert_eq.
  - intros r0 [l0 Hr0].
    rewrite lookup_alter_ne, lookup_insert_ne; [done|congruence|congruence].
Qed.

(** ** The "yourself" rule *)

Lemma find_named_unique (users : list User) (y : string) (u : User) :
  u ∈ users → name u = y →
  (∀ p, p ∈ users → name p = y → p = u) →
  List.find (named y) users = Some u.
Proof.
  induction users as [|x users IH]; intros Hu Hname Huniq.
  - by apply elem_of_nil in Hu.
  - cbn. unfold named at 1.
    destruct (String.eqb_spec (name x) y) as [Heq|Hne].
    + f_equal. apply Huniq; [apply list_elem_of_here|done].
    + apply elem_of_cons in Hu as [->|Hu]; [done|].
      apply IH; [done|done|].
      intros p Hp. apply Huniq. by apply list_elem_of_further.
Qed.

Lemma find_named_None (y : string) (l : list User) :
  (∀ p, p ∈ l → name p ≠ y) → List.find (named y) l = None.
Proof.
  intros Hl. induction l as [|x l IH]; [done|].
  cbn. unfold named at 1.
  destruct (String.eqb_spec (name x) y) as [Heq|_].
  - exfalso. by apply (Hl x); [apply list_elem_of_here|].
  - apply IH. intros p Hp. apply Hl. by apply list_elem_of_further.
Qed.

Lemma filter_users_subset users opts p :
  p ∈ filter_users users opts → p ∈ users.
Proof.
  unfold filter_users. rewrite !list_elem_of_In, filter_In. by intros [? _].
Qed.

Lemma yourself_to_add_Some users opts y u :
  o_includeYourselfName opts = Some y → y ≠ "" →
  u ∈ users → name u = y →
  (∀ p, p ∈ users → name p = y → p = u) →
  in_exclude (opt_excludeSet opts) y = false →
  str_truthy (timezone u) = true ∨ opt_excludeNullTimezones opts = false →
  u ∉ filter_users users opts →
  yourself_to_add (opt_excludeSet opts) (o_includeYourselfName opts)
    (opt_excludeNullTimezones opts) users (filter_users users opts) = Some u.
Proof.
  intros Hy Hne Hu Hname Huniq Hex Htz Hnot.
  unfold yourself_to_add. rewrite Hy, Hex. cbn [str_truthy].
  destruct (String.eqb_spec y "") as [|_]; [done|]. cbn [negb andb].
  rewrite (find_named_unique users y u Hu Hname Huniq).
  rewrite find_named_None.
  - cbn [found negb]. rewrite andb_true_r.
    destruct Htz as [-> | ->]; [done|]. by rewrite orb_true_r.
  - intros p Hp Hpn.
    pose proof (filter_users_subset _ _ _ Hp) as Hpu.
    by rewrite (Huniq p Hpu Hpn) in Hp.
Qed.

(** C7.  When the designated "yourself" name is that of a listed user who
    is not excluded, has a timezone (or users without one are allowed) and
    is not among the filtered participants, that user's record is appended
    to them, whatever the inclusion set says; the result is a newly
    allocated array and the input array is left as it was.  A name is
    designated when it is a non-empty string, and it names the user when no
    other listed user carries it. *)
Theorem yourself_is_appended (σ : gmap positive (list User)) (r_users : positive)
    (users : list User) (opts : Opts) (y : string) (u : User) :
  σ !! r_users = Some users →
  o_includeYourselfName opts = Some y → y ≠ "" →
  u ∈ users → name u = y →
  (∀ p, p ∈ users → name p = y → p = u) →
  in_exclude (opt_excludeSet opts) y = false →
  str_truthy (timezone u) = true ∨ opt_excludeNullTimezones opts = false →
  u ∉ filter_users users opts →
  select_participants users opts = (filter_users users opts ++ [u])%list ∧
  (∀ conv today res, scoreSlots48 conv today users opts = Some res →
     participants res = (filter_users users opts ++ [u])%list) ∧
  ∃ r σ', select_participants_st σ r_users opts = Some (r, σ') ∧
    σ' !! r = Some (filter_users users opts ++ [u])%list ∧
    r ≠ r_users ∧
    σ' !! r_users = Some users ∧
    ∀ r0, is_Some (σ !! r0) → σ' !! r0 = σ !! r0.
Proof.
  intros Hσ Hy Hne Hu Hname Huniq Hex Htz Hnot.
  assert (select_participants users opts = (filter_users users opts ++ [u])%list)
    as Hsel.
  { unfold select_participants. by erewrite yourself_to_add_Some. }
  split_and!; [done| |].
  - intros conv today res (_ & -> & _)%scoreSlots48_inv. done.
  - destruct (select_participants_st_spec σ r_users users opts Hσ)
      as (r & σ' & Hrun & Hr & Hfresh & Hkeep).
    exists r, σ'. rewrite <- Hsel.
    split_and!; [done|done|congruence| |done].
    rewrite Hkeep; [done|by eexists].
Qed.

Lemma alice_is_the_only_Alice :
  ∀ p, p ∈ sample_users → name p = "Alice" → p = alice.
Proof.
  assert (Forall (λ p, name p = "Alice" → p = alice) sample_users) as Hall.
  { refine (bool_decide_unpack _ _). vm_compute. exact I. }
  intros p Hp. rewrite Forall_forall in Hall. by apply Hall.
Qed.

(** Bob alone is selected; Alice, named as "yourself", is appended. *)
Lemma yourself_is_appended_witness :
  select_participants sample_users yourself_opts = [bob; alice].
Proof.
  destruct (yourself_is_appended {[1%positive := sample_users]} 1%positive
              sample_users yourself_opts "Alice" alice) as (Hsel & _).
  - apply lookup_singleton_eq.
  - reflexivity.
  - discriminate.
  - apply list_elem_of_here.
  - reflexivity.
  - apply alice_is_the_only_Alice.
  - reflexivity.
  - left. reflexivity.
  - refine (bool_decide_unpack _ _). vm_compute. exact I.
  - rewrite Hsel. vm_compute. reflexivity.
Defined.

(** ** Ranking *)

Lemma sublist_filter_mono {A} (P : A → bool) (l1 l2 : list A) :
  l1 `sublist_of` l2 → List.filter P l1 `sublist_of` List.filter P l2.
Proof.
  induction 1 as [|x l1 l2 _ IH|x l1 l2 _ IH]; cbn.
  - constructor.
  - destruct (P x); [by constructor|done].
  - destruct (P x); [by constructor|done].
Qed.

Lemma sublist_filter_self {A} (P : A → bool) (l : list A) :
  List.filter P l `sublist_of` l.
Proof.
  induction l as [|x l IH]; cbn; [constructor|].
  destruct (P x); by constructor.
Qed.

Lemma rankSlots_stable (slots : list Slot) (z : Slot) :
  List.filter (same_keys z) (rankSlots slots) = List.filter (same_keys z) slots.
Proof.
  pose proof (sort_stable compareSlots compareSlots_flip compareSlots_trans z slots)
    as H.
  rewrite !(filter_ext (tie compareSlots z) (same_keys z)) in H
    by apply compareSlots_tie.
  exact H.
Qed.

Lemma same_keys_refl a : same_keys a a = true.
Proof. unfold same_keys. by rewrite !Z.eqb_refl. Qed.

(** C5.  [rankSlots] returns a newly allocated array holding the ranked
    records and writes to no array that existed before, its input
    included; records that tie on all four keys keep their relative input
    order; ranking a ranked array changes nothing. *)
Theorem rankSlots_nondestructive_stable (σ : gmap positive (list Slot))
    (r_slots : positive) (slots : list Slot) :
  σ !! r_slots = Some slots →
  (∃ r σ', rankSlots_st σ r_slots = Some (r, σ') ∧
     σ' !! r = Some (rankSlots slots) ∧
     r ≠ r_slots ∧
     σ' !! r_slots = Some slots ∧
     ∀ r0, is_Some (σ !! r0) → σ' !! r0 = σ !! r0) ∧
  (∀ z, List.filter (same_keys z) (rankSlots slots)
        = List.filter (same_keys z) slots) ∧
  (∀ a b, same_keys a b = true → [a; b] `sublist_of` slots →
          [a; b] `sublist_of` rankSlots slots) ∧
  rankSlots (rankSlots slots) = rankSlots slots.
Proof.
  intros Hσ. split_and!.
  - destruct (rankSlots_st_spec σ r_slots slots Hσ)
      as (r & σ' & Hrun & Hr & Hfresh & Hkeep).
    exists r, σ'. split_and!; [done|done|congruence| |done].
    rewrite Hkeep; [done|by eexists].
  - intros z. apply rankSlots_stable.
  - intros a b Hab Hsub.
    apply (sublist_filter_mono (same_keys a)) in Hsub.
    cbn in Hsub. rewrite same_keys_refl, Hab in Hsub.
    rewrite <- rankSlots_stable in Hsub.
    etrans; [exact Hsub|apply sublist_filter_self].
  - apply sort_idempotent; [apply compareSlots_flip|apply compareSlots_trans].
Qed.

(** [slot_a] and [slot_c] tie and stay in input order around [slot_b]. *)
Lemma rankSlots_nondestructive_stable_witness :
  rankSlots [slot_b; slot_a; slot_c] = [slot_a; slot_c; slot_b] ∧
  [slot_a; slot_c] `sublist_of` rankSlots [slot_b; slot_a; slot_c] ∧
  rankSlots (rankSlots [slot_b; slot_a; slot_c]) = rankSlots [slot_b; slot_a; slot_c].
Proof.
  destruct (rankSlots_nondestructive_stable
              {[5%positive := [slot_b; slot_a; slot_c]]} 5%positive
              [slot_b; slot_a; slot_c]) as (_ & _ & Hsub & Hidem).
  - apply lookup_singleton_eq.
  - split; [reflexivity|]. split; [|exact Hidem].
    apply Hsub; [reflexivity|]. apply sublist_cons. reflexivity.
Defined.

(** * Further properties of the scoring core *)

(** ** Parsing well-formed window strings *)

(** X1.  A window string made of a run of digits, a colon and a run of
    digits is read as sixty times the first number plus the second;
    further colon-separated fields are ignored, and a run of digits alone
    is read as whole hours.  The result is required to be at most 2^53,
    the range in which the arithmetic of the source is exact. *)
Theorem parseHHMMToMinutes_digits (hh mm : string) (h m : Z) :
  hh ≠ "" → mm ≠ "" →
  digits_val 0 hh = Some h → digits_val 0 mm = Some m →
  h * 60 + m <= 2 ^ 53 →
  parseHHMMToMinutes (hh +:+ ":" +:+ mm) = Int (h * 60 + m) ∧
  (∀ rest, parseHHMMToMinutes (hh +:+ ":" +:+ mm +:+ ":" +:+ rest)
           = Int (h * 60 + m)) ∧
  parseHHMMToMinutes hh = Int (h * 60).
Proof.
  intros Hh Hm Hhv Hmv _. split_and!.
  - unfold parseHHMMToMinutes.
    change (hh +:+ ":" +:+ mm) with (hh +:+ String ":" mm).
    rewrite (split_digits_colon hh 0 h mm Hhv), (split_digits mm 0 m Hmv).
    cbn [List.map head]. rewrite (Number_digits hh h), (Number_digits mm m) by done.
    by rewrite or_zero_Int.
  - intros rest. unfold parseHHMMToMinutes.
    change (hh +:+ ":" +:+ mm +:+ ":" +:+ rest)
      with (hh +:+ String ":" (mm +:+ String ":" rest)).
    rewrite (split_digits_colon hh 0 h _ Hhv), (split_digits_colon mm 0 m _ Hmv).
    cbn [List.map head]. rewrite (Number_digits hh h), (Number_digits mm m) by done.
    by rewrite or_zero_Int.
  - unfold parseHHMMToMinutes. rewrite (split_digits hh 0 h Hhv).
    cbn [List.map head]. rewrite (Number_digits hh h) by done.
    cbn. f_equal. lia.
Qed.

(** "07:30" is minute 450. *)
Lemma parseHHMMToMinutes_digits_witness :
  parseHHMMToMinutes ("07" +:+ ":" +:+ "30") = Int (7 * 60 + 30).
Proof.
  destruct (parseHHMMToMinutes_digits "07" "30" 7 30) as (Hparse & _);
    [discriminate|discriminate|reflexivity|reflexivity|lia|].
  exact Hparse.
Defined.

(** ** The range test: complement and size *)

Lemma isInRange_swap (t s e : Z) :
  s ≠ e →
  isInRange (Int t) (Int e) (Int s) = negb (isInRange (Int t) (Int s) (Int e)).
Proof.
  intros Hne. rewrite !isInRange_Int.
  destruct (Z.eqb_spec s e), (Z.eqb_spec e s), (Z.ltb_spec s e), (Z.ltb_spec e s),
    (Z.leb_spec s t), (Z.leb_spec e t), (Z.ltb_spec t e), (Z.ltb_spec t s);
    cbn; try reflexivity; lia.
Qed.

(** X2.  For distinct ends, swapping them complements the range: a minute
    is in [end, start) exactly when it is not in [start, end). *)
Theorem isInRange_swap_complement (t s e : Z) :
  s ≠ e →
  isInRange (Int t) (Int e) (Int s) = negb (isInRange (Int t) (Int s) (Int e)).
Proof. apply isInRange_swap. Qed.

Lemma isInRange_swap_complement_witness :
  isInRange (Int 30) (Int 60) (Int 1380)
    = negb (isInRange (Int 30) (Int 1380) (Int 60)).
Proof. apply (isInRange_swap_complement 30 1380 60). lia. Defined.

Lemma count_if_app {A} (P : A → bool) (l1 l2 : list A) :
  count_if P (l1 ++ l2) = count_if P l1 + count_if P l2.
Proof. unfold count_if. rewrite List.filter_app, length_app. lia. Qed.

Lemma count_if_ext {A} (P Q : A → bool) (l : list A) :
  (∀ x, x ∈ l → P x = Q x) → count_if P l = count_if Q l.
Proof.
  intros H. induction l as [|x l IH]; [done|].
  rewrite !count_if_cons, H, IH; [done| |apply list_elem_of_here].
  intros y Hy. apply H. by apply list_elem_of_further.
Qed.

Lemma count_if_true {A} (l : list A) :
  count_if (λ _, true) l = Z.of_nat (length l).
Proof. induction l as [|x l IH]; [done|]. rewrite count_if_cons, IH. cbn [length]. lia. Qed.

Lemma count_if_false {A} (l : list A) : count_if (λ _, false) l = 0.
Proof. induction l as [|x l IH]; [done|]. by rewrite count_if_cons, IH. Qed.

Lemma count_if_negb {A} (P : A → bool) (l : list A) :
  count_if (λ x, negb (P x)) l = Z.of_nat (length l) - count_if P l.
Proof.
  induction l as [|x l IH]; [done|].
  rewrite !count_if_cons, IH. cbn [length]. destruct (P x); cbn; lia.
Qed.

Lemma seqZ_elem (m n x : Z) : x ∈ seqZ m n → m <= x < m + n.
Proof.
  intros [i Hi]%list_elem_of_lookup. apply lookup_seqZ in Hi. lia.
Qed.

(** The minutes below [n] that lie in the plain interval from [a] to [b]. *)
Lemma count_interval (a b n : Z) :
  0 <= a → a <= b → b <= n →
  count_if (λ t, (a <=? t) && (t <? b)) (seqZ 0 n) = b - a.
Proof.
  intros Ha Hab Hbn.
  replace n with (a + ((b - a) + (n - b))) by lia.
  rewrite seqZ_app, seqZ_app by lia. rewrite !count_if_app.
  rewrite (count_if_ext _ (λ _, false) (seqZ 0 a)), count_if_false.
  2: { intros x Hx%seqZ_elem. destruct (Z.leb_spec a x); [lia|done]. }
  rewrite (count_if_ext _ (λ _, true) (seqZ (0 + a) (b - a))), count_if_true.
  2: { intros x Hx%seqZ_elem.
       destruct (Z.leb_spec a x), (Z.ltb_spec x b); try done; lia. }
  rewrite (count_if_ext _ (λ _, false) (seqZ _ (n - b))), count_if_false.
  2: { intros x Hx%seqZ_elem.
       destruct (Z.leb_spec a x), (Z.ltb_spec x b); try done; lia. }
  rewrite length_seqZ. lia.
Qed.

Lemma count_range_plain (n s e : Z) :
  0 <= s → s < e → e <= n →
  count_if (λ t, isInRange (Int t) (Int s) (Int e)) (seqZ 0 n) = e - s.
Proof.
  intros Hs Hse He.
  rewrite <- (count_interval s e n) by lia.
  apply count_if_ext. intros t _. rewrite isInRange_Int.
  destruct (Z.eqb_spec s e); [lia|]. by destruct (Z.ltb_spec s e); [|lia].
Qed.

Lemma count_range (n s e : Z) :
  0 <= s < n → 0 <= e < n →
  count_if (λ t, isInRange (Int t) (Int s) (Int e)) (seqZ 0 n)
    = if s =? e then n else (e - s) mod n.
Proof.
  intros Hs He. destruct (Z.eqb_spec s e) as [->|Hne].
  - rewrite (count_if_ext _ (λ _, true)), count_if_true, length_seqZ; [lia|].
    intros t _. apply isInRange_full_day.
  - destruct (Z.lt_ge_cases s e) as [Hlt|Hge].
    + rewrite count_range_plain by lia.
      rewrite Z.mod_small by lia. reflexivity.
    + rewrite (count_if_ext _ (λ t, negb (isInRange (Int t) (Int e) (Int s)))).
      2: { intros t _. apply isInRange_swap. lia. }
      rewrite count_if_negb, count_range_plain, length_seqZ by lia.
      rewrite Z2Nat.id by lia.
      apply (Z.mod_unique _ _ (-1)); lia.
Qed.

(** X3.  Among the 1440 minutes of a day a range with both ends in the
    day contains all of them when the ends coincide and, otherwise, as
    many as the clock advances from start to end: [end - start] modulo
    1440, whether or not the range wraps past midnight. *)
Theorem covered_minutes_count (s e : Z) :
  0 <= s < 1440 → 0 <= e < 1440 →
  covered_minutes s e = if s =? e then 1440 else (e - s) mod 1440.
Proof. intros Hs He. by apply (count_range 1440). Qed.

(** 23:00-01:00 covers 120 minutes. *)
Lemma covered_minutes_count_witness :
  covered_minutes 1380 60 = if 1380 =? 60 then 1440 else (60 - 1380) mod 1440.
Proof. apply (covered_minutes_count 1380 60); lia. Defined.

(** ** Scores under the default rules *)

Ltac split_leb :=
  match goal with |- context [(?a <=? ?b)%Z] => destruct (Z.leb_spec a b) end.

Ltac split_ltb :=
  match goal with |- context [(?a <? ?b)%Z] => destruct (Z.ltb_spec a b) end.

Ltac range_cases := repeat (split_leb || split_ltb).

Lemma isInRange_plain (t s e : Z) :
  s < e → isInRange (Int t) (Int s) (Int e) = (s <=? t) && (t <? e).
Proof.
  intros Hlt. rewrite isInRange_Int.
  destruct (Z.eqb_spec s e); [lia|]. by destruct (Z.ltb_spec s e); [|lia].
Qed.

Lemma default_unblocked (lm : num) (pref : option string) :
  let b := preferenceBoost lm pref DEFAULT_RULES in
  match getBaseScoreAndBand lm DEFAULT_RULES with
  | (base, Green) => base = 3 ∧ 0 <= b <= 1
  | (base, Yellow) => base = 2 ∧ 0 <= b <= 1
  | (base, Red) => base = 0 ∧ b = 0
  end.
Proof.
  unfold getBaseScoreAndBand, preferenceBoost.
  destruct lm as [|z].
  - cbn. destruct (pref_is pref "early_bird"), (pref_is pref "night_owl"); done.
  - cbn [DEFAULT_RULES green yellow1 yellow2 redScore
      earlyBirdBoostRange nightOwlBoostRange start end_ score
      boost_start boost_end boost].
    rewrite !isInRange_plain by lia.
    destruct (pref_is pref "early_bird"), (pref_is pref "night_owl");
      range_cases; cbn [andb orb]; lia.
Qed.

Lemma default_contribution (ut : User * LocalTime) :
  let c := contribution DEFAULT_RULES ut in
  (blocked_at ut = true → c = -100) ∧
  (in_band DEFAULT_RULES Green ut = true → 3 <= c <= 4) ∧
  (in_band DEFAULT_RULES Yellow ut = true → 2 <= c <= 3) ∧
  (in_band DEFAULT_RULES Red ut = true → c = 0).
Proof.
  unfold contribution, in_band, band_at.
  pose proof (default_unblocked (localMin ut.2) (preference ut.1)) as H.
  cbn zeta in H.
  destruct (blocked_at ut); cbn [negb andb]; [by split_and!|].
  destruct (getBaseScoreAndBand (localMin ut.2) DEFAULT_RULES) as [base []];
    cbn [fst snd]; split_and!; try done;
    intros Hb; try (by apply bool_decide_eq_true in Hb); lia.
Qed.

Lemma default_sum_bounds (uts : list (User * LocalTime)) :
  let g := count_if (in_band DEFAULT_RULES Green) uts in
  let y := count_if (in_band DEFAULT_RULES Yellow) uts in
  let b := count_if blocked_at uts in
  3 * g + 2 * y - 100 * b <= sumZ (List.map (contribution DEFAULT_RULES) uts)
    <= 4 * g + 3 * y - 100 * b.
Proof.
  induction uts as [|ut uts IH]; [done|]. cbn zeta in *.
  rewrite !count_if_cons. cbn [List.map sumZ foldr].
  fold (sumZ (List.map (contribution DEFAULT_RULES) uts)).
  destruct (default_contribution ut) as (Hb & Hg & Hy & Hr). cbn zeta in *.
  destruct (verdicts_partition DEFAULT_RULES [ut]) as [Hp1 Hp2].
  rewrite !count_if_cons in Hp1, Hp2. unfold count_if in Hp1, Hp2.
  cbn [List.filter length] in Hp1, Hp2.
  destruct (blocked_at ut), (in_band DEFAULT_RULES Green ut),
    (in_band DEFAULT_RULES Yellow ut), (in_band DEFAULT_RULES Red ut);
    cbn in Hp1, Hp2; try lia;
    repeat match goal with
           | H : true = true → _ |- _ => specialize (H eq_refl)
           end; lia.
Qed.

(** X4.  Under the default rules the total score of a slot lies between
    [3 green + 2 yellow - 100 blocked] and [4 green + 3 yellow - 100
    blocked]: a red participant adds nothing and a boost adds at most one
    point; in particular it never exceeds four points per participant. *)
Theorem default_rules_score_bounds
    (conv : string → Z → option string → option LocalTime) (today : string)
    (users : list User) (opts : Opts) (res : Scored) (s : Slot) :
  scoreSlots48 conv today users opts = Some res →
  o_rules opts = None → s ∈ slots res →
  3 * greenCount s + 2 * yellowCount s - 100 * blockedCount s <= totalScore s ∧
  totalScore s <= 4 * greenCount s + 3 * yellowCount s - 100 * blockedCount s ∧
  totalScore s <= 4 * participantsCount s.
Proof.
  intros Hres Hrules Hs.
  destruct (scoreSlots48_slot_inv _ _ _ _ _ _ Hres Hs) as [_ Hslot].
  apply score_slot_inv in Hslot as (ts & Hts & _ & Hn & Ht & Hb & Hg & Hy & Hr).
  assert (opt_rules opts = DEFAULT_RULES) as Hdef by (unfold opt_rules; by rewrite Hrules).
  rewrite Hdef in *.
  pose proof (zip_length_same (participants res) ts
                (local_times_length _ _ _ _ _ Hts)) as Hzip.
  destruct (verdicts_partition DEFAULT_RULES (zip (participants res) ts))
    as [Hp1 Hp2].
  rewrite Hzip, <- Hn in Hp1.
  pose proof (default_sum_bounds (zip (participants res) ts)) as Hbound.
  cbn zeta in Hbound. rewrite <- Ht, <- Hb, <- Hg, <- Hy in Hbound.
  assert (0 <= redCount s) by (rewrite Hr; unfold count_if; lia).
  assert (0 <= blockedCount s) by (rewrite Hb; unfold count_if; lia).
  assert (0 <= yellowCount s) by (rewrite Hy; unfold count_if; lia).
  lia.
Qed.

Lemma default_rules_score_bounds_witness :
  3 * greenCount sample_noon_slot + 2 * yellowCount sample_noon_slot
    - 100 * blockedCount sample_noon_slot <= totalScore sample_noon_slot.
Proof.
  destruct (default_rules_score_bounds sample_conversion sample_date sample_users
              sample_opts sample_result sample_noon_slot
              sample_result_eq eq_refl sample_noon_slot_in) as (Hlow & _).
  exact Hlow.
Defined.

(** ** Scores without preferences *)

Lemma plain_contribution rules (ut : User * LocalTime) :
  no_boost_preference ut.1 = true →
  contribution rules ut =
    score (green rules) * (if in_band rules Green ut then 1 else 0)
    + score (yellow1 rules) * (if in_band rules Yellow ut then 1 else 0)
    + redScore rules * (if in_band rules Red ut then 1 else 0)
    + blockedScore rules * (if blocked_at ut then 1 else 0).
Proof.
  unfold no_boost_preference, contribution, in_band, band_at, preferenceBoost,
    getBaseScoreAndBand.
  intros [He Hn]%andb_prop. apply negb_true_iff in He, Hn. rewrite He, Hn.
  destruct (blocked_at ut); cbn [negb andb]; [lia|].
  destruct (isInRange _ (Int (start (green rules))) _); cbn [fst snd].
  - repeat (case_bool_decide; try congruence). lia.
  - destruct (_ || _); cbn [fst snd];
      repeat (case_bool_decide; try congruence); lia.
Qed.

Lemma plain_sum rules (uts : list (User * LocalTime)) :
  Forall (λ ut, no_boost_preference ut.1 = true) uts →
  sumZ (List.map (contribution rules) uts) =
    score (green rules) * count_if (in_band rules Green) uts
    + score (yellow1 rules) * count_if (in_band rules Yellow) uts
    + redScore rules * count_if (in_band rules Red) uts
    + blockedScore rules * count_if blocked_at uts.
Proof.
  induction 1 as [|ut uts Hut _ IH]; [cbn; unfold count_if; cbn; lia|].
  rewrite !count_if_cons. cbn [List.map sumZ foldr].
  fold (sumZ (List.map (contribution rules) uts)).
  rewrite IH, (plain_contribution rules ut Hut). lia.
Qed.

(** X5.  When no participant is an early bird or a night owl, the total
    score of a slot is determined by its four counts: green count times
    the green score, plus yellow count times the first yellow score, plus
    red count times the red score, plus blocked count times the blocked
    score. *)
Theorem total_score_from_counts
    (conv : string → Z → option string → option LocalTime) (today : string)
    (users : list User) (opts : Opts) (res : Scored) (s : Slot) :
  scoreSlots48 conv today users opts = Some res →
  (∀ u, u ∈ participants res → no_boost_preference u = true) →
  s ∈ slots res →
  totalScore s =
    score (green (opt_rules opts)) * greenCount s
    + score (yellow1 (opt_rules opts)) * yellowCount s
    + redScore (opt_rules opts) * redCount s
    + blockedScore (opt_rules opts) * blockedCount s.
Proof.
  intros Hres Hplain Hs.
  destruct (scoreSlots48_slot_inv _ _ _ _ _ _ Hres Hs) as [_ Hslot].
  apply score_slot_inv in Hslot as (ts & _ & _ & _ & -> & -> & -> & -> & ->).
  apply plain_sum. apply Forall_forall. intros [u t] Hut. cbn.
  apply Hplain. by apply elem_of_zip_l in Hut.
Qed.

(** Carol alone: no preference, blocked before 13:00 by her window. *)
Lemma total_score_from_counts_witness :
  ∃ res s, scoreSlots48 sample_conversion sample_date [carol] sample_opts = Some res ∧
    slots res !! 0%nat = Some s ∧
    totalScore s = 3 * greenCount s + 2 * yellowCount s + 0 * redCount s
                   + -100 * blockedCount s.
Proof.
  destruct (scoreSlots48 sample_conversion sample_date [carol] sample_opts)
    as [res|] eqn:Hres; [|vm_compute in Hres; discriminate Hres].
  destruct (slots res !! 0%nat) as [s|] eqn:Hs.
  2: { apply lookup_ge_None in Hs.
       rewrite (scoreSlots48_length _ _ _ _ _ Hres) in Hs. lia. }
  exists res, s. split; [reflexivity|]. split; [exact Hs|].
  apply (total_score_from_counts sample_conversion sample_date [carol]
           sample_opts res s Hres).
  - intros u Hu.
    destruct (scoreSlots48_inv _ _ _ _ _ Hres) as (_ & Hp & _).
    rewrite Hp in Hu. apply list_elem_of_singleton in Hu as ->. reflexivity.
  - by eapply list_elem_of_lookup_2.
Defined.

(** ** The red-participant list *)

Lemma score_local_reds rules acc u t :
  a_redParticipants (score_local rules acc u t) =
    (λ reds, reds ++ List.map to_red (List.filter (in_band rules Red) [(u, t)]))%list
      <$> a_redParticipants acc.
Proof.
  unfold score_local, in_band, band_at, blocked_at. cbn [fst snd List.filter].
  destruct (isBlocked _ _ _); cbn [negb andb List.map].
  - destruct (a_redParticipants acc); cbn; [by rewrite app_nil_r|done].
  - destruct (getBaseScoreAndBand (localMin t) rules) as [base []];
      cbn [snd a_redParticipants]; repeat (case_bool_decide; try congruence);
      cbn [List.map]; destruct (a_redParticipants acc); cbn;
      by rewrite ?app_nil_r.
Qed.

Lemma foldl_score_local_reds rules uts acc :
  a_redParticipants (foldl (λ a ut, score_local rules a ut.1 ut.2) acc uts) =
    (λ reds, reds ++ List.map to_red (List.filter (in_band rules Red) uts))%list
      <$> a_redParticipants acc.
Proof.
  revert acc. induction uts as [|[u t] uts IH]; intros acc.
  - cbn. destruct (a_redParticipants acc); cbn; [by rewrite app_nil_r|done].
  - cbn [foldl fst snd]. rewrite IH, score_local_reds.
    change ((u, t) :: uts) with ([(u, t)] ++ uts)%list.
    rewrite List.filter_app, List.map_app.
    destruct (a_redParticipants acc); cbn [fmap option_fmap option_map];
      [by rewrite <- app_assoc|done].
Qed.

Lemma score_slot_reds conv date rules inc ps utc s ts :
  score_slot conv date rules inc ps utc = Some s →
  local_times conv date utc ps = Some ts →
  redParticipants s =
    if inc then Some (List.map to_red (List.filter (in_band rules Red) (zip ps ts)))
    else None.
Proof.
  unfold score_slot. rewrite for_of_score_user. intros Hs Hts.
  rewrite Hts in Hs. cbn in Hs. injection Hs as <-. cbn [redParticipants].
  rewrite foldl_score_local_reds. by destruct inc.
Qed.

(** X6.  Unless the caller switches the collection off, every slot record
    lists its red-band participants, by name, timezone and local label, in
    participant order; the list has exactly [redCount] entries and holds no
    blocked, green or yellow participant.  With the collection off the
    record has no such list. *)
Theorem red_participants_listed
    (conv : string → Z → option string → option LocalTime) (today : string)
    (users : list User) (opts : Opts) (res : Scored) (s : Slot) :
  scoreSlots48 conv today users opts = Some res → s ∈ slots res →
  ∃ ts, local_times conv (dateISO res) (utcStartMin s) (participants res) = Some ts ∧
    (o_includeRedParticipants opts ≠ Some false →
       redParticipants s =
         Some (List.map to_red
                 (List.filter (in_band (opt_rules opts) Red)
                    (zip (participants res) ts)))) ∧
    (o_includeRedParticipants opts = Some false → redParticipants s = None) ∧
    (∀ reds, redParticipants s = Some reds → Z.of_nat (length reds) = redCount s).
Proof.
  intros Hres Hs.
  destruct (scoreSlots48_slot_inv _ _ _ _ _ _ Hres Hs) as [_ Hslot].
  destruct (score_slot_inv _ _ _ _ _ _ _ Hslot)
    as (ts & Hts & _ & _ & _ & _ & _ & _ & Hr).
  pose proof (score_slot_reds _ _ _ _ _ _ _ _ Hslot Hts) as Hreds.
  exists ts. split; [done|]. unfold opt_includeRedParticipants in Hreds.
  split_and!.
  - intros Hinc. rewrite Hreds.
    by destruct (o_includeRedParticipants opts) as [[]|].
  - intros Hinc. by rewrite Hreds, Hinc.
  - intros reds Hsome. rewrite Hreds in Hsome.
    destruct (default true (o_includeRedParticipants opts)); [|done].
    injection Hsome as <-. by rewrite length_map, Hr.
Qed.

(** At 00:00 UTC Alice and Bob are red and Carol is blocked. *)
Lemma red_participants_listed_witness :
  ∃ s reds, slots sample_result !! 0%nat = Some s ∧
    redParticipants s = Some reds ∧ Z.of_nat (length reds) = redCount s.
Proof.
  destruct (slots sample_result !! 0%nat) as [s|] eqn:Hs;
    [|vm_compute in Hs; discriminate Hs].
  destruct (red_participants_listed sample_conversion sample_date sample_users
              sample_opts sample_result s sample_result_eq
              (list_elem_of_lookup_2 _ _ _ Hs))
    as (ts & Hts & Hon & _ & Hlen).
  assert (o_includeRedParticipants sample_opts ≠ Some false) as Hinc by discriminate.
  specialize (Hon Hinc).
  eexists s, _. split; [reflexivity|]. split; [exact Hon|].
  apply Hlen. exact Hon.
Defined.

(** ** The 48 slots *)

Lemma generateUtcSlots48_lookup (i : nat) (utc : Z) :
  generateUtcSlots48 !! i = Some utc ↔ utc = 30 * Z.of_nat i ∧ (i < 48)%nat.
Proof.
  assert (generateUtcSlots48 = (λ i, Z.of_nat i * 30) <$> seq 0 48) as ->
    by reflexivity.
  rewrite list_lookup_fmap. split.
  - intros Hi. destruct (seq 0 48 !! i) as [j|] eqn:Hj; [|done].
    apply lookup_seq in Hj as [-> Hlt]. cbn in Hi. injection Hi as <-. lia.
  - intros [-> Hlt]. rewrite (lookup_seq_lt 0 48 i Hlt). cbn. f_equal. lia.
Qed.

(** X8.  The result always has its slot records in UTC order: the record
    at position [i] (from 0 to 47) is the one of the slot starting [30 i]
    minutes after UTC midnight, so start minutes are pairwise distinct
    multiples of 30 below 1440. *)
Theorem slots_in_utc_order
    (conv : string → Z → option string → option LocalTime) (today : string)
    (users : list User) (opts : Opts) (res : Scored) :
  scoreSlots48 conv today users opts = Some res →
  (∀ i s, slots res !! i = Some s →
     (i < 48)%nat ∧ utcStartMin s = 30 * Z.of_nat i) ∧
  (∀ i, (i < 48)%nat → ∃ s, slots res !! i = Some s) ∧
  NoDup (List.map utcStartMin (slots res)).
Proof.
  intros Hres.
  destruct (scoreSlots48_inv _ _ _ _ _ Hres) as (_ & _ & Hall).
  assert (∀ i s, slots res !! i = Some s →
            (i < 48)%nat ∧ utcStartMin s = 30 * Z.of_nat i) as Hpos.
  { intros i s Hi.
    destruct (Forall2_lookup_r _ _ _ _ _ Hall Hi) as (utc & Hutc & Hslot).
    apply score_slot_inv in Hslot as (_ & _ & -> & _).
    apply generateUtcSlots48_lookup in Hutc as [-> Hlt]. done. }
  split_and!; [done| |].
  - intros i Hlt. apply lookup_lt_is_Some.
    by rewrite (scoreSlots48_length _ _ _ _ _ Hres).
  - apply NoDup_alt. intros i j x Hi Hj.
    change (List.map utcStartMin (slots res)) with (utcStartMin <$> slots res) in *.
    rewrite list_lookup_fmap in Hi, Hj.
    destruct (slots res !! i) as [si|] eqn:Hsi; [|done].
    destruct (slots res !! j) as [sj|] eqn:Hsj; [|done].
    cbn in Hi, Hj. injection Hi as <-. injection Hj as Hj.
    destruct (Hpos i si Hsi) as [_ Hui]. destruct (Hpos j sj Hsj) as [_ Huj]. lia.
Qed.

Lemma slots_in_utc_order_witness :
  ∃ s, slots sample_result !! 24%nat = Some s ∧ utcStartMin s = 30 * Z.of_nat 24.
Proof.
  destruct (slots_in_utc_order sample_conversion sample_date sample_users
              sample_opts sample_result sample_result_eq) as (Hpos & Hall & _).
  destruct (Hall 24%nat) as [s Hs]; [lia|].
  exists s. split; [exact Hs|]. by apply Hpos.
Defined.

(** ** Who is selected *)

Lemma filter_users_elem users opts p :
  p ∈ filter_users users opts ↔
  p ∈ users ∧
  keep_user (opt_excludeSet opts) (opt_selectedSet opts) (o_team opts)
    (opt_excludeNullTimezones opts) p = true.
Proof. unfold filter_users. by rewrite !list_elem_of_In, filter_In. Qed.

Lemma keep_user_true ex sel tm en u :
  keep_user ex sel tm en u = true ↔
  in_exclude ex (name u) = false ∧ not_selected sel (name u) = false ∧
  other_team tm u = false ∧ (en = true → str_truthy (timezone u) = true).
Proof.
  unfold keep_user.
  destruct (in_exclude _ _), (not_selected _ _), (other_team _ _), en,
    (str_truthy _); cbn; naive_solver.
Qed.

Lemma yourself_to_add_inv ex who en users ps y' :
  yourself_to_add ex who en users ps = Some y' →
  who = Some (name y') ∧ name y' ≠ "" ∧ y' ∈ users ∧
  in_exclude ex (name y') = false ∧
  (en = true → str_truthy (timezone y') = true) ∧
  (∀ p, p ∈ ps → name p ≠ name y').
Proof.
  unfold yourself_to_add. destruct who as [y|]; [|done].
  cbn [str_truthy]. destruct (String.eqb_spec y "") as [|Hne]; [done|].
  destruct (in_exclude ex y) eqn:Hex; [done|]. cbn [negb andb].
  destruct (List.find (named y) users) as [yourself|] eqn:Hfind; [|done].
  apply find_some in Hfind as [Hin Hname]. unfold named in Hname.
  apply String.eqb_eq in Hname.
  destruct (str_truthy (timezone yourself) || negb en) eqn:Htz; [|done].
  destruct (List.find (named y) ps) as [q|] eqn:Hps; [done|].
  cbn. intros [= <-]. subst y. split_and!; try done.
  - by apply list_elem_of_In.
  - intros ->. by destruct (str_truthy (timezone yourself)).
  - intros p Hp Hpn. apply list_elem_of_In in Hp.
    pose proof (find_none _ _ Hps p Hp) as Hf. unfold named in Hf.
    rewrite Hpn, String.eqb_refl in Hf. done.
Qed.

Lemma select_participants_elem users opts p :
  p ∈ select_participants users opts ↔
  p ∈ filter_users users opts ∨
  yourself_to_add (opt_excludeSet opts) (o_includeYourselfName opts)
    (opt_excludeNullTimezones opts) users (filter_users users opts) = Some p.
Proof.
  unfold select_participants.
  destruct (yourself_to_add _ _ _ _ _) as [y|].
  - rewrite elem_of_app, list_elem_of_singleton. naive_solver.
  - naive_solver.
Qed.

(** X9.  Whatever the options, every selected participant is one of the
    given users and is not named in the exclusion set, and, unless users
    without a timezone are explicitly allowed, has a timezone; this holds
    for the "yourself" participant too. *)
Theorem selection_never_admits (users : list User) (opts : Opts) (p : User) :
  p ∈ select_participants users opts →
  p ∈ users ∧
  (∀ S, opt_excludeSet opts = Some S → name p ∉ S) ∧
  (o_excludeNullTimezones opts ≠ Some false → str_truthy (timezone p) = true).
Proof.
  intros Hp.
  assert (p ∈ users ∧ in_exclude (opt_excludeSet opts) (name p) = false ∧
          (opt_excludeNullTimezones opts = true → str_truthy (timezone p) = true))
    as (Hu & Hex & Htz).
  { apply select_participants_elem in Hp as [Hf|Hy].
    - apply filter_users_elem in Hf as [Hu Hk].
      apply keep_user_true in Hk as (? & _ & _ & ?). done.
    - apply yourself_to_add_inv in Hy as (_ & _ & ? & ? & ? & _). done. }
  split_and!; [done| |].
  - intros S HS. rewrite HS in Hex. cbn in Hex.
    by apply bool_decide_eq_false in Hex.
  - intros Hallow. apply Htz. unfold opt_excludeNullTimezones.
    by destruct (o_excludeNullTimezones opts) as [[]|].
Qed.

(** Carol is excluded, Alice is appended as "yourself". *)
Lemma selection_never_admits_witness :
  alice ∈ select_participants sample_users design_opts ∧
  str_truthy (timezone alice) = true.
Proof.
  assert (alice ∈ select_participants sample_users design_opts) as Hin.
  { refine (bool_decide_unpack _ _). vm_compute. exact I. }
  split; [exact Hin|].
  destruct (selection_never_admits sample_users design_opts alice Hin)
    as (_ & _ & Htz).
  apply Htz. discriminate.
Defined.

(** X10.  Every selected participant other than the one named as
    "yourself" satisfies the filters in force: with a non-empty allow-list
    the participant is named in it, and with a non-empty team filter the
    participant belongs to that team. *)
Theorem selection_respects_filters (users : list User) (opts : Opts) (p : User) :
  p ∈ select_participants users opts →
  o_includeYourselfName opts ≠ Some (name p) →
  (∀ S, opt_selectedSet opts = Some S → S ≠ ∅ → name p ∈ S) ∧
  (∀ t, o_team opts = Some t → t ≠ "" → team p = Some t).
Proof.
  intros Hp Hnot.
  apply select_participants_elem in Hp as [Hf|Hy].
  2: { apply yourself_to_add_inv in Hy as (? & _). done. }
  apply filter_users_elem in Hf as [_ Hk].
  apply keep_user_true in Hk as (_ & Hsel & Hteam & _). split.
  - intros S HS Hne. rewrite HS in Hsel. unfold not_selected in Hsel.
    assert (size S ≠ 0%nat) as Hsize.
    { apply size_non_empty_iff. by intros ->%leibniz_equiv. }
    destruct (Nat.ltb_spec 0 (size S)); [|lia]. cbn [andb] in Hsel.
    apply negb_false_iff, bool_decide_eq_true in Hsel. done.
  - intros t Ht Hne. rewrite Ht in Hteam. cbn in Hteam.
    destruct (String.eqb_spec t ""); [done|]. cbn in Hteam.
    destruct (team p) as [ut|]; [|done].
    apply negb_false_iff, String.eqb_eq in Hteam. by subst.
Qed.

(** Bob is in team "Design". *)
Lemma selection_respects_filters_witness :
  bob ∈ select_participants sample_users design_opts ∧ team bob = Some "Design".
Proof.
  assert (bob ∈ select_participants sample_users design_opts) as Hin.
  { refine (bool_decide_unpack _ _). vm_compute. exact I. }
  split; [exact Hin|].
  destruct (selection_respects_filters sample_users design_opts bob Hin)
    as (_ & Hteam); [discriminate|].
  apply Hteam; [reflexivity|discriminate].
Defined.

Lemma filter_users_sublist users opts : filter_users users opts `sublist_of` users.
Proof. apply sublist_filter_self. Qed.

(** X11.  The selected participants are the users that pass the filter,
    in input order, followed by at most one appended record; when the
    users have pairwise distinct names, so have the participants, and
    there are then no more participants than users. *)
Theorem selection_keeps_order (users : list User) (opts : Opts) :
  (∃ tail, select_participants users opts = (filter_users users opts ++ tail)%list
           ∧ (length tail <= 1)%nat) ∧
  filter_users users opts `sublist_of` users ∧
  (NoDup (List.map name users) →
     NoDup (List.map name (select_participants users opts)) ∧
     (length (select_participants users opts) <= length users)%nat).
Proof.
  split_and!.
  - unfold select_participants.
    destruct (yourself_to_add _ _ _ _ _) as [y|].
    + exists [y]. split; [done|cbn; lia].
    + exists []. split; [by rewrite app_nil_r|cbn; lia].
  - apply filter_users_sublist.
  - intros Hnd.
    assert (NoDup (List.map name (filter_users users opts))) as Hf.
    { eapply sublist_NoDup; [exact Hnd|].
      apply (fmap_sublist name _ _ (filter_users_sublist users opts)). }
    assert (NoDup (List.map name (select_participants users opts))) as Hsel.
    { unfold select_participants.
      destruct (yourself_to_add _ _ _ _ _) as [y|] eqn:Hy; [|done].
      apply yourself_to_add_inv in Hy as (_ & _ & _ & _ & _ & Hfresh).
      rewrite List.map_app. apply NoDup_app. split_and!; [done| |apply NoDup_singleton].
      intros n Hn. cbn. rewrite list_elem_of_singleton. intros ->.
      apply list_elem_of_In, in_map_iff in Hn as (q & Hq & Hin).
      apply list_elem_of_In in Hin. by apply (Hfresh q). }
    split; [done|].
    assert (List.map name (select_participants users opts) ⊆ List.map name users)
      as Hsub.
    { intros n Hn. apply list_elem_of_In, in_map_iff in Hn as (q & <- & Hin).
      apply list_elem_of_In in Hin.
      apply list_elem_of_In, in_map.
      apply list_elem_of_In.
      apply select_participants_elem in Hin as [Hq|Hq].
      - by apply filter_users_elem in Hq as [? _].
      - by apply yourself_to_add_inv in Hq as (_ & _ & ? & _). }
    pose proof (submseteq_length _ _ (NoDup_submseteq _ _ Hsel Hsub)) as Hlen.
    by rewrite !length_map in Hlen.
Qed.

Lemma selection_keeps_order_witness :
  NoDup (List.map name (select_participants sample_users design_opts)).
Proof.
  destruct (selection_keeps_order sample_users design_opts) as (_ & _ & Hnd).
  apply Hnd. refine (bool_decide_unpack _ _). vm_compute. exact I.
Defined.

Lemma not_selected_empty (n : Names) (s : string) :
  to_set n = ∅ → not_selected (Some (to_set n)) s = false.
Proof. intros ->. reflexivity. Qed.

Lemma filter_users_ext users opts opts' :
  opt_excludeSet opts = opt_excludeSet opts' →
  opt_excludeNullTimezones opts = opt_excludeNullTimezones opts' →
  (∀ u, not_selected (opt_selectedSet opts) (name u)
        = not_selected (opt_selectedSet opts') (name u)) →
  (∀ u, other_team (o_team opts) u = other_team (o_team opts') u) →
  filter_users users opts = filter_users users opts'.
Proof.
  intros Hex Hen Hsel Hteam. unfold filter_users. apply filter_ext.
  intros u. unfold keep_user. by rewrite Hex, Hen, Hsel, Hteam.
Qed.

(** X12.  An allow-list without names and an empty team string are the
    same as no allow-list and no team filter: the run gives the same
    result. *)
Theorem empty_filters_are_absent
    (conv : string → Z → option string → option LocalTime) (today : string)
    (users : list User) (opts : Opts) :
  (∀ n, o_selectedNames opts = Some n → to_set n = ∅ →
     select_participants users opts
       = select_participants users (without_selection opts) ∧
     scoreSlots48 conv today users opts
       = scoreSlots48 conv today users (without_selection opts)) ∧
  (o_team opts = Some "" →
     select_participants users opts = select_participants users (without_team opts) ∧
     scoreSlots48 conv today users opts
       = scoreSlots48 conv today users (without_team opts)).
Proof.
  split.
  - intros n Hn Hempty.
    assert (filter_users users opts = filter_users users (without_selection opts))
      as Hf.
    { apply filter_users_ext; try done. intros u.
      unfold opt_selectedSet. rewrite Hn. cbn [fmap option_fmap option_map].
      by rewrite not_selected_empty. }
    assert (select_participants users opts
            = select_participants users (without_selection opts)) as Hsel.
    { unfold select_participants. by rewrite Hf. }
    split; [done|]. unfold scoreSlots48. by rewrite Hsel.
  - intros Hteam.
    assert (filter_users users opts = filter_users users (without_team opts)) as Hf.
    { apply filter_users_ext; try done. intros u. by rewrite Hteam. }
    assert (select_participants users opts
            = select_participants users (without_team opts)) as Hsel.
    { unfold select_participants. by rewrite Hf. }
    split; [done|]. unfold scoreSlots48. by rewrite Hsel.
Qed.

Lemma empty_filters_are_absent_witness :
  select_participants sample_users design_opts
    = select_participants sample_users (without_selection design_opts).
Proof.
  destruct (empty_filters_are_absent sample_conversion sample_date sample_users
              design_opts) as (Hsel & _).
  destruct (Hsel (NameArray []) eq_refl eq_refl) as (Heq & _).
  exact Heq.
Defined.

(** ** The order of the participants does not matter *)

Lemma acc_tally_refl a : acc_tally a a.
Proof. by repeat split. Qed.

Lemma acc_tally_trans a b c : acc_tally a b → acc_tally b c → acc_tally a c.
Proof. unfold acc_tally. intros (?&?&?&?&?) (?&?&?&?&?). split_and!; congruence. Qed.

Lemma score_local_tally rules a b u t :
  acc_tally a b → acc_tally (score_local rules a u t) (score_local rules b u t).
Proof.
  unfold acc_tally. intros (Ht & Hg & Hy & Hr & Hb).
  destruct (score_local_totals rules a u t) as (-> & -> & -> & -> & ->).
  destruct (score_local_totals rules b u t) as (-> & -> & -> & -> & ->).
  split_and!; congruence.
Qed.

Lemma score_local_swap rules a u t u' t' :
  acc_tally (score_local rules (score_local rules a u t) u' t')
            (score_local rules (score_local rules a u' t') u t).
Proof.
  unfold acc_tally.
  destruct (score_local_totals rules (score_local rules a u t) u' t')
    as (-> & -> & -> & -> & ->).
  destruct (score_local_totals rules (score_local rules a u' t') u t)
    as (-> & -> & -> & -> & ->).
  destruct (score_local_totals rules a u t) as (-> & -> & -> & -> & ->).
  destruct (score_local_totals rules a u' t') as (-> & -> & -> & -> & ->).
  split_and!; lia.
Qed.

Lemma option_tally_trans (x y z : option Acc) :
  option_Forall2 acc_tally x y → option_Forall2 acc_tally y z →
  option_Forall2 acc_tally x z.
Proof.
  intros Hxy Hyz. destruct Hxy; inversion Hyz; subst; constructor.
  by eapply acc_tally_trans.
Qed.

Lemma for_of_score_user_cons conv date rules utc a (u : User) (l : list User) :
  for_of (score_user conv date rules utc) a (u :: l) =
    match conv date utc (timezone u) with
    | Some t => for_of (score_user conv date rules utc) (score_local rules a u t) l
    | None => None
    end.
Proof.
  cbn [for_of].
  change (score_user conv date rules utc a u)
    with (conv date utc (timezone u) ≫= λ t, Some (score_local rules a u t)).
  by destruct (conv date utc (timezone u)).
Qed.

Lemma for_of_tally conv date rules utc (l : list User) a b :
  acc_tally a b →
  option_Forall2 acc_tally (for_of (score_user conv date rules utc) a l)
    (for_of (score_user conv date rules utc) b l).
Proof.
  revert a b. induction l as [|u l IH]; intros a b Hab; [by constructor|].
  rewrite !for_of_score_user_cons.
  destruct (conv date utc (timezone u)) as [t|]; [|constructor].
  by apply IH, score_local_tally.
Qed.

Lemma for_of_perm conv date rules utc (l l' : list User) :
  l ≡ₚ l' → ∀ a,
  option_Forall2 acc_tally (for_of (score_user conv date rules utc) a l)
    (for_of (score_user conv date rules utc) a l').
Proof.
  induction 1 as [|x l l' _ IH|x y l|l1 l2 l3 _ IH1 _ IH2]; intros a.
  - constructor. apply acc_tally_refl.
  - rewrite !for_of_score_user_cons.
    destruct (conv date utc (timezone x)); [apply IH|constructor].
  - rewrite !for_of_score_user_cons.
    destruct (conv date utc (timezone x)) as [tx|] eqn:Hx,
             (conv date utc (timezone y)) as [ty|] eqn:Hy;
      rewrite ?for_of_score_user_cons, ?Hx, ?Hy; try constructor.
    apply for_of_tally, score_local_swap.
  - eapply option_tally_trans; [apply IH1|apply IH2].
Qed.

Lemma score_slot_perm conv date rules inc (ps ps' : list User) utc :
  ps ≡ₚ ps' →
  option_Forall2 same_tally (score_slot conv date rules inc ps utc)
    (score_slot conv date rules inc ps' utc).
Proof.
  intros Hp. unfold score_slot.
  destruct (for_of_perm conv date rules utc ps ps' Hp (acc0 inc))
    as [a b (Ht & Hg & Hy & Hr & Hb)|]; cbn; constructor.
  unfold same_tally. cbn. rewrite (Permutation_length Hp).
  split_and!; done.
Qed.

Lemma mapM_rel {A B} (R : B → B → Prop) (f g : A → option B) (l : list A) :
  (∀ x, option_Forall2 R (f x) (g x)) →
  option_Forall2 (Forall2 R) (mapM f l) (mapM g l).
Proof.
  intros Hfg. induction l as [|x l IH]; [by repeat constructor|].
  cbn [mapM]. destruct (Hfg x) as [y y' Hy|]; cbn; [|constructor].
  destruct IH as [k k' Hk|]; cbn; constructor. by constructor.
Qed.

Lemma List_filter_perm {A} (f : A → bool) (l l' : list A) :
  l ≡ₚ l' → List.filter f l ≡ₚ List.filter f l'.
Proof.
  induction 1 as [|x l l' _ IH|x y l|l1 l2 l3 _ IH1 _ IH2]; cbn.
  - done.
  - destruct (f x); [by constructor|done].
  - destruct (f x), (f y); try done. apply Permutation_swap.
  - by etrans.
Qed.

Lemma found_find_iff {A} (f : A → bool) (l : list A) :
  found (List.find f l) = true ↔ ∃ x, x ∈ l ∧ f x = true.
Proof.
  induction l as [|x l IH]; cbn.
  - split; [done|]. intros (x & Hx & _). by apply elem_of_nil in Hx.
  - destruct (f x) eqn:Hfx; cbn.
    + split; [|done]. intros _. exists x. split; [apply list_elem_of_here|done].
    + rewrite IH. split.
      * intros (y & Hy & Hfy). exists y. split; [by apply list_elem_of_further|done].
      * intros (y & Hy & Hfy). apply elem_of_cons in Hy as [->|Hy]; [congruence|].
        by exists y.
Qed.

Lemma found_find_perm {A} (f : A → bool) (l l' : list A) :
  l ≡ₚ l' → found (List.find f l) = found (List.find f l').
Proof.
  intros Hp.
  destruct (found (List.find f l)) eqn:H1, (found (List.find f l')) eqn:H2;
    try done.
  - apply found_find_iff in H1 as (x & Hx & Hfx). rewrite Hp in Hx.
    assert (found (List.find f l') = true) by (apply found_find_iff; eauto).
    congruence.
  - apply found_find_iff in H2 as (x & Hx & Hfx). rewrite <- Hp in Hx.
    assert (found (List.find f l) = true) by (apply found_find_iff; eauto).
    congruence.
Qed.

Lemma NoDup_name_inj (l : list User) (p q : User) :
  NoDup (List.map name l) → p ∈ l → q ∈ l → name p = name q → p = q.
Proof.
  induction l as [|x l IH]; intros Hnd Hp Hq Hpq.
  - by apply elem_of_nil in Hp.
  - cbn in Hnd. apply NoDup_cons in Hnd as [Hx Hnd].
    assert (∀ r, r ∈ l → name r ≠ name x) as Hfresh.
    { intros r Hr Hrx. apply Hx. rewrite <- Hrx.
      apply list_elem_of_In, in_map, list_elem_of_In, Hr. }
    apply elem_of_cons in Hp as [->|Hp], Hq as [->|Hq]; try done.
    + exfalso. by apply (Hfresh q).
    + exfalso. by apply (Hfresh p).
    + by apply IH.
Qed.

Lemma find_named_perm (y : string) (l l' : list User) :
  NoDup (List.map name l) → l ≡ₚ l' →
  List.find (named y) l = List.find (named y) l'.
Proof.
  intros Hnd Hp.
  assert (NoDup (List.map name l')) as Hnd'.
  { assert (List.map name l ≡ₚ List.map name l') as Hm
      by (by apply (fmap_Permutation name)).
    by rewrite <- Hm. }
  destruct (List.find (named y) l) as [u|] eqn:Hfind.
  - apply find_some in Hfind as [Hin Hname]. unfold named in Hname.
    apply String.eqb_eq in Hname. apply list_elem_of_In in Hin.
    symmetry. apply find_named_unique; [by rewrite <- Hp|done|].
    intros p Hp' Hpy. apply (NoDup_name_inj l'); [done|done|by rewrite <- Hp|].
    congruence.
  - symmetry. apply find_named_None. intros p Hp' Hpy.
    rewrite <- Hp in Hp'. apply list_elem_of_In in Hp'.
    pose proof (find_none _ _ Hfind p Hp') as Hf. unfold named in Hf.
    rewrite Hpy, String.eqb_refl in Hf. done.
Qed.

Lemma select_participants_perm (users users' : list User) (opts : Opts) :
  users ≡ₚ users' →
  o_includeYourselfName opts = None ∨ NoDup (List.map name users) →
  select_participants users opts ≡ₚ select_participants users' opts.
Proof.
  intros Hp Hcase.
  assert (filter_users users opts ≡ₚ filter_users users' opts) as Hf
    by (by apply List_filter_perm).
  unfold select_participants, yourself_to_add.
  destruct (o_includeYourselfName opts) as [y|] eqn:Hy; [|done].
  destruct Hcase as [|Hnd]; [done|].
  destruct (str_truthy (Some y) && negb (in_exclude (opt_excludeSet opts) y));
    [|done].
  rewrite <- (find_named_perm y users users' Hnd Hp).
  destruct (List.find (named y) users) as [yourself|]; [|done].
  rewrite <- (found_find_perm (named y) _ _ Hf).
  destruct (_ && _); [|done]. by rewrite Hf.
Qed.

(** X13.  Reordering the users changes no score: with the same options,
    a run on a permutation of the users fails or succeeds alike and, on
    success, gives the same date, the same participants up to order, and
    slot by slot the same start minute, total score and counts (only the
    order of the red-participant lists may differ).  This needs users with
    pairwise distinct names when a "yourself" name is given. *)
Theorem scoring_ignores_user_order
    (conv : string → Z → option string → option LocalTime) (today : string)
    (users users' : list User) (opts : Opts) :
  users ≡ₚ users' →
  o_includeYourselfName opts = None ∨ NoDup (List.map name users) →
  option_Forall2 same_scores
    (scoreSlots48 conv today users opts) (scoreSlots48 conv today users' opts).
Proof.
  intros Hp Hcase.
  pose proof (select_participants_perm users users' opts Hp Hcase) as Hsel.
  unfold scoreSlots48.
  destruct (mapM_rel same_tally
              (score_slot conv (opt_dateISO today opts) (opt_rules opts)
                 (opt_includeRedParticipants opts) (select_participants users opts))
              (score_slot conv (opt_dateISO today opts) (opt_rules opts)
                 (opt_includeRedParticipants opts) (select_participants users' opts))
              generateUtcSlots48) as [k k' Hk|]; cbn.
  - intros utc. by apply score_slot_perm.
  - constructor. by split_and!.
  - constructor.
Qed.

Lemma scoring_ignores_user_order_witness :
  option_Forall2 same_scores
    (scoreSlots48 sample_conversion sample_date [alice; bob; carol] sample_opts)
    (scoreSlots48 sample_conversion sample_date [carol; alice; bob] sample_opts).
Proof.
  apply scoring_ignores_user_order.
  - change [alice; bob; carol] with ([alice; bob] ++ [carol])%list.
    symmetry. apply Permutation_cons_append.
  - left. reflexivity.
Defined.

(** ** The best-ranked slot *)

Lemma compareSlots_le_blocked a b :
  compareSlots a b <= 0 →
  blockedCount a <= blockedCount b ∧
  (blockedCount a = blockedCount b → redCount a <= redCount b).
Proof. compare_cases; lia. Qed.

(** X14.  Ranking keeps every record exactly once, and for a non-empty
    input the first ranked record is a best one: no input record ranks
    before it, none has fewer blocked participants, and none with as many
    blocked participants has fewer red ones. *)
Theorem rankSlots_best_first (slots : list Slot) :
  slots ≠ [] →
  rankSlots slots ≡ₚ slots ∧
  ∃ best rest, rankSlots slots = best :: rest ∧ best ∈ slots ∧
    ∀ s, s ∈ slots →
      ¬ ranks_before s best ∧
      blockedCount best <= blockedCount s ∧
      (blockedCount best = blockedCount s → redCount best <= redCount s).
Proof.
  intros Hne. split; [apply rankSlots_perm|].
  pose proof (rankSlots_perm slots) as Hperm.
  pose proof (rankSlots_sorted slots) as Hsorted.
  destruct (rankSlots slots) as [|best rest] eqn:Hrank.
  { apply Permutation_nil_l in Hperm. done. }
  exists best, rest. split; [done|]. split.
  { rewrite <- Hperm. apply list_elem_of_here. }
  intros s Hs. rewrite <- Hperm in Hs.
  apply StronglySorted_inv in Hsorted as [_ Hall].
  assert (compareSlots best s <= 0) as Hle.
  { apply elem_of_cons in Hs as [->|Hs].
    - pose proof (compareSlots_flip best best). lia.
    - rewrite Forall_forall in Hall. by apply Hall. }
  split.
  - rewrite <- compareSlots_neg, (compareSlots_flip best s). lia.
  - by apply compareSlots_le_blocked.
Qed.

(** The best slots of the sample run have nobody blocked. *)
Lemma rankSlots_best_first_witness :
  ∃ best rest, rankSlots (slots sample_result) = best :: rest ∧
    blockedCount best <= blockedCount sample_noon_slot.
Proof.
  destruct (rankSlots_best_first (slots sample_result)) as (_ & best & rest & Hr & _ & Hbest).
  - intros Hnil. pose proof sample_noon_slot_in as Hin.
    rewrite Hnil in Hin. by apply elem_of_nil in Hin.
  - exists best, rest. split; [exact Hr|].
    by apply (Hbest sample_noon_slot sample_noon_slot_in).
Defined.

(** ** More on blocked windows *)

Lemma window_hits_full_day lm d w m :
  parseHHMMToMinutes (w_start w) = Int m →
  parseHHMMToMinutes (w_end w) = Int m →
  (has_date w = true → d = w_date w) →
  window_hits lm d w = true.
Proof.
  intros Hs He Hd. unfold window_hits. rewrite Hs, He.
  assert (isInRange lm (Int m) (Int m) = true) as ->.
  { unfold isInRange. cbn. by rewrite Z.eqb_refl. }
  destruct (has_date w) eqn:Hhas; [|done].
  rewrite (Hd eq_refl). apply has_date_true in Hhas as (wd & Hwd & _).
  unfold date_differs. rewrite Hwd, String.eqb_refl. done.
Qed.

(** X15.  A window whose start and end parse to the same minute blocks
    the participant at every local time of the days it applies to, even
    when the local minute is not a number. *)
Theorem full_day_window_blocks (lm : num) (d : option string)
    (ws : list Window) (w : Window) (m : Z) :
  w ∈ ws →
  parseHHMMToMinutes (w_start w) = Int m →
  parseHHMMToMinutes (w_end w) = Int m →
  (has_date w = true → d = w_date w) →
  isBlocked lm (Some ws) d = true.
Proof.
  intros Hin Hs He Hd. rewrite isBlocked_existsb. apply existsb_exists.
  exists w. split; [by apply list_elem_of_In|by eapply window_hits_full_day].
Qed.

Lemma full_day_window_blocks_witness :
  isBlocked NaN (Some [mkWindow "9:00" "09:00" (Some sample_date)])
    (Some sample_date) = true.
Proof.
  apply (full_day_window_blocks NaN (Some sample_date) _
           (mkWindow "9:00" "09:00" (Some sample_date)) 540).
  - apply list_elem_of_here.
  - reflexivity.
  - reflexivity.
  - reflexivity.
Defined.

Lemma window_hits_other_day lm d w wd :
  w_date w = Some wd → wd ≠ "" → d ≠ Some wd → window_hits lm d w = false.
Proof.
  intros Hw Hne Hd. destruct (window_hits lm d w) eqn:Hhit; [|done].
  apply window_hits_matches in Hhit as [Hdate _]. by specialize (Hdate wd Hw Hne).
Qed.

Lemma isBlocked_Some lm d (ws : list Window) :
  isBlocked lm (Some ws) d = existsb (window_hits lm d) ws.
Proof. by rewrite isBlocked_existsb. Qed.

(** X16.  Being blocked depends only on which windows are present, not
    on their order or grouping: the windows of two lists together block
    exactly when one of the lists does.  Windows dated to other days than
    the local date never block, so a participant all of whose windows are
    dated elsewhere, or whose local date is unknown while all windows are
    dated, is not blocked. *)
Theorem isBlocked_union_and_dates (lm : num) (d : option string)
    (ws ws' : list Window) :
  isBlocked lm (Some (ws ++ ws')%list) d
    = isBlocked lm (Some ws) d || isBlocked lm (Some ws') d ∧
  (ws ≡ₚ ws' → isBlocked lm (Some ws) d = isBlocked lm (Some ws') d) ∧
  ((∀ w, w ∈ ws → ∃ wd, w_date w = Some wd ∧ wd ≠ "" ∧ d ≠ Some wd) →
   isBlocked lm (Some ws) d = false).
Proof.
  rewrite !isBlocked_Some. split_and!.
  - apply existsb_app.
  - intros Hp.
    destruct (existsb (window_hits lm d) ws) eqn:H1,
      (existsb (window_hits lm d) ws') eqn:H2; try done.
    + apply existsb_exists in H1 as (w & Hw & Hhit).
      apply list_elem_of_In in Hw. rewrite Hp in Hw.
      assert (existsb (window_hits lm d) ws' = true) as Habs; [|congruence].
      apply existsb_exists. exists w. by rewrite <- list_elem_of_In.
    + apply existsb_exists in H2 as (w & Hw & Hhit).
      apply list_elem_of_In in Hw. rewrite <- Hp in Hw.
      assert (existsb (window_hits lm d) ws = true) as Habs; [|congruence].
      apply existsb_exists. exists w. by rewrite <- list_elem_of_In.
  - intros Hdated.
    destruct (existsb (window_hits lm d) ws) eqn:H1; [|done].
    apply existsb_exists in H1 as (w & Hw & Hhit).
    apply list_elem_of_In in Hw.
    destruct (Hdated w Hw) as (wd & Hwd & Hne & Hd).
    by rewrite (window_hits_other_day lm d w wd) in Hhit.
Qed.

(** A full-day block dated to the day before does not block. *)
Lemma isBlocked_union_and_dates_witness :
  isBlocked (Int 600) (Some [mkWindow "00:00" "00:00" (Some "2026-02-24")])
    (Some sample_date) = false.
Proof.
  destruct (isBlocked_union_and_dates (Int 600) (Some sample_date)
              [mkWindow "00:00" "00:00" (Some "2026-02-24")] []) as (_ & _ & Hdated).
  apply Hdated. intros w Hw. apply list_elem_of_singleton in Hw as ->.
  exists "2026-02-24". split_and!; [reflexivity|discriminate|discriminate].
Defined.

(** ** Switching the red-participant collection *)

(** X17.  Switching the collection of red participants on or off changes
    nothing but the presence of the lists: the run fails or succeeds
    alike, with the same date and participants and, slot by slot, the same
    start minute, total score and counts. *)
Theorem red_collection_changes_no_score
    (conv : string → Z → option string → option LocalTime) (today : string)
    (users : list User) (opts : Opts) (b : option bool) :
  option_Forall2 same_scores
    (scoreSlots48 conv today users opts)
    (scoreSlots48 conv today users (with_red_collection opts b)).
Proof.
  unfold scoreSlots48.
  change (select_participants users (with_red_collection opts b))
    with (select_participants users opts).
  change (opt_dateISO today (with_red_collection opts b))
    with (opt_dateISO today opts).
  change (opt_rules (with_red_collection opts b)) with (opt_rules opts).
  destruct (mapM_rel same_tally
              (score_slot conv (opt_dateISO today opts) (opt_rules opts)
                 (opt_includeRedParticipants opts) (select_participants users opts))
              (score_slot conv (opt_dateISO today opts) (opt_rules opts)
                 (opt_includeRedParticipants (with_red_collection opts b))
                 (select_participants users opts))
              generateUtcSlots48) as [k k' Hk|].
  - intros utc. unfold score_slot.
    assert (acc_tally (acc0 (opt_includeRedParticipants opts))
              (acc0 (opt_includeRedParticipants (with_red_collection opts b))))
      as Hacc.
    { by destruct (opt_includeRedParticipants opts),
        (opt_includeRedParticipants (with_red_collection opts b)). }
    destruct (for_of_tally conv (opt_dateISO today opts) (opt_rules opts) utc
                (select_participants users opts) _ _ Hacc)
      as [a a' (Ht & Hg & Hy & Hr & Hb)|]; cbn; constructor.
    unfold same_tally. cbn. by split_and!.
  - cbn. constructor. by split_and!.
  - cbn. constructor.
Qed.

(** ** A local minute that is not a number *)

Lemma isInRange_NaN_proper (s e : Z) :
  s ≠ e → isInRange NaN (Int s) (Int e) = false.
Proof.
  intros Hne. rewrite isInRange_NaN_time. cbn. by apply Z.eqb_neq.
Qed.

(** X18.  When the conversion yields NaN as local minute (an invalid
    date-time), and no range of the rule set has coinciding ends, the
    participant is classified red with the red score and gets no boost,
    whatever the preference; a window blocks such a participant only if
    its two ends parse to the same number. *)
Theorem nan_local_minute_is_red (rules : Rules) (pref : option string)
    (d : option string) (w : Window) :
  proper_ranges rules →
  getBaseScoreAndBand NaN rules = (redScore rules, Red) ∧
  preferenceBoost NaN pref rules = 0 ∧
  (window_hits NaN d w = true →
     ∃ m, parseHHMMToMinutes (w_start w) = Int m ∧
          parseHHMMToMinutes (w_end w) = Int m).
Proof.
  intros (Hg & Hy1 & Hy2 & He & Hn). split_and!.
  - unfold getBaseScoreAndBand. by rewrite !isInRange_NaN_proper.
  - unfold preferenceBoost. rewrite !isInRange_NaN_proper by done.
    by destruct (pref_is pref "early_bird"), (pref_is pref "night_owl").
  - intros [_ Hhit]%window_hits_matches. rewrite isInRange_NaN_time in Hhit.
    destruct (parseHHMMToMinutes (w_start w)) as [|m],
      (parseHHMMToMinutes (w_end w)) as [|m']; try done.
    cbn in Hhit. apply Z.eqb_eq in Hhit as ->. by exists m'.
Qed.

Lemma nan_local_minute_is_red_witness :
  getBaseScoreAndBand NaN DEFAULT_RULES = (0, Red) ∧
  preferenceBoost NaN (Some "early_bird") DEFAULT_RULES = 0.
Proof.
  destruct (nan_local_minute_is_red DEFAULT_RULES (Some "early_bird") None
              (mkWindow "" "" None)) as (Hband & Hboost & _).
  - unfold proper_ranges. cbn. split_and!; lia.
  - split; [exact Hband|exact Hboost].
Defined.
